(** * tiara: GitHub issues webhook (backend/controller/github.py)

    A shallow embedding of [save_issue_to_database] and of the
    [github_webhook_issues] hook, and the properties of the
    event-to-state reconciliation they implement.

    Python values are modelled by [PyVal], dictionaries by stdpp's [gmap],
    exceptions by the error side of [Result], and the database and GitHub
    collaborators by fallible state transformers over an abstract [World].
    Every collaborator call is recorded, with its outcome, in a trace. *)

From Stdlib Require Import Ascii String.
From stdpp Require Import gmap strings list.

Open Scope string_scope.
Open Scope Z_scope.

(** ** Python values, dictionaries and exceptions *)

(** The values that occur as column values and as entries of the decoded
    label and assignee descriptors: [None], integers and strings. *)
Inductive PyVal :=
  | VNone
  | VInt (z : Z)
  | VStr (s : string).

#[global] Instance PyVal_eq_dec : EqDecision PyVal.
Proof. solve_decision. Defined.

(** A decoded descriptor ([dict]) with string keys. *)
Abbreviation Dict := (gmap string PyVal).

(** The exceptions the hook can see; all of them are subclasses of
    [Exception], so both [except Exception] clauses catch them. *)
Inductive exn :=
  | KeyError (key : string)
  | UnboundLocalError (var : string)
  | CollaboratorError (msg : string).

#[global] Instance exn_eq_dec : EqDecision exn.
Proof. solve_decision. Defined.

(** [str(e)] *)
Definition str_exn (e : exn) : string :=
  match e with
  | KeyError key => "'" ++ key ++ "'"
  | UnboundLocalError var =>
      "cannot access local variable '" ++ var ++
      "' where it is not associated with a value"
  | CollaboratorError msg => msg
  end.

Inductive Result (A : Type) :=
  | Ok (a : A)
  | Raise (e : exn).
Arguments Ok {A} a.
Arguments Raise {A} e.

Definition raised {A} (r : Result A) : option exn :=
  match r with Ok _ => None | Raise e => Some e end.

Definition is_ok {A} (r : Result A) : bool :=
  match r with Ok _ => true | Raise _ => false end.

(** [d[key]]: a missing key raises [KeyError]. *)
Definition subscript (d : Dict) (key : string) : Result PyVal :=
  match d !! key with
  | Some v => Ok v
  | None => Raise (KeyError key)
  end.

(** [[d[key] for d in ds]] *)
Fixpoint subscript_all (ds : list Dict) (key : string) : Result (list PyVal) :=
  match ds with
  | [] => Ok []
  | d :: ds' =>
      match subscript d key with
      | Raise e => Raise e
      | Ok v =>
          match subscript_all ds' key with
          | Raise e => Raise e
          | Ok vs => Ok (v :: vs)
          end
      end
  end.

(** Truthiness of an optional string attribute: [None] and the empty
    string are falsy. *)
Definition truthy (v : option string) : bool :=
  match v with
  | None => false
  | Some s => negb (String.eqb s EmptyString)
  end.

(** ** The Issue model *)

(** Modelled from the spec: the [Issue] class of [backend.model.issue] is
    not part of the sources; its attributes are the ones the controller
    reads, with [labels] and [assignees] kept in their serialized form. *)
Record Issue := mkIssue {
  github_issue_id : Z;
  github_issue_number : Z;
  repository_name : string;
  title : string;
  author_login : string;
  state : string;
  labels : option string;
  assignees : option string
}.

#[global] Instance Issue_eq_dec : EqDecision Issue.
Proof. solve_decision. Defined.

(** Column names of the issue table. *)
Inductive Field :=
  | F_github_issue_id
  | F_github_issue_number
  | F_repository_name
  | F_title
  | F_author_login
  | F_state
  | F_labels
  | F_assignees.

#[global] Instance Field_eq_dec : EqDecision Field.
Proof. solve_decision. Defined.

#[global] Instance Field_countable : Countable Field.
Proof.
  refine (inj_countable'
    (λ f, match f with
          | F_github_issue_id => 0%nat | F_github_issue_number => 1%nat
          | F_repository_name => 2%nat | F_title => 3%nat
          | F_author_login => 4%nat | F_state => 5%nat
          | F_labels => 6%nat | F_assignees => 7%nat
          end)
    (λ n, match n with
          | 0%nat => F_github_issue_id | 1%nat => F_github_issue_number
          | 2%nat => F_repository_name | 3%nat => F_title
          | 4%nat => F_author_login | 5%nat => F_state
          | 6%nat => F_labels | _ => F_assignees
          end) _).
  by intros [].
Defined.

Definition ISSUE_FIELDS : list Field :=
  [F_github_issue_id; F_github_issue_number; F_repository_name; F_title;
   F_author_login; F_state; F_labels; F_assignees].

Definition opt_val (v : option string) : PyVal :=
  match v with Some s => VStr s | None => VNone end.

(** [getattr(issue, field)] *)
Definition field_value (f : Field) (i : Issue) : PyVal :=
  match f with
  | F_github_issue_id => VInt (github_issue_id i)
  | F_github_issue_number => VInt (github_issue_number i)
  | F_repository_name => VStr (repository_name i)
  | F_title => VStr (title i)
  | F_author_login => VStr (author_login i)
  | F_state => VStr (state i)
  | F_labels => opt_val (labels i)
  | F_assignees => opt_val (assignees i)
  end.

(** A partial row: the [changed_fields] dictionary handed to
    [table.update]. *)
Abbreviation FieldMap := (gmap Field PyVal).

Definition int_or (m : FieldMap) (f : Field) (old : Z) : Z :=
  match m !! f with Some (VInt z) => z | _ => old end.

Definition str_or (m : FieldMap) (f : Field) (old : string) : string :=
  match m !! f with Some (VStr s) => s | _ => old end.

Definition opt_or (m : FieldMap) (f : Field) (old : option string)
  : option string :=
  match m !! f with
  | Some (VStr s) => Some s
  | Some VNone => None
  | _ => old
  end.

(** Modelled from the spec: the partial update of one stored row by a
    field-name map ([Table.update(fieldMap, keyPredicate)]); columns that
    are not keys of the map keep their value. *)
Definition apply_changes (m : FieldMap) (r : Issue) : Issue :=
  {| github_issue_id := int_or m F_github_issue_id (github_issue_id r);
     github_issue_number :=
       int_or m F_github_issue_number (github_issue_number r);
     repository_name := str_or m F_repository_name (repository_name r);
     title := str_or m F_title (title r);
     author_login := str_or m F_author_login (author_login r);
     state := str_or m F_state (state r);
     labels := opt_or m F_labels (labels r);
     assignees := opt_or m F_assignees (assignees r) |}.

(** Modelled from the spec: [diff_and_get_changed_fields] of
    [backend.model.init_database] is not part of the sources.  For every
    field except the protected ones the stored and the incoming value are
    compared by value; a field that differs is included with the incoming
    value. *)
Definition diff_fields (protected : gset Field) (existing incoming : Issue)
  : list Field -> FieldMap :=
  foldr (λ f acc,
           if decide (f ∈ protected) then acc
           else if decide (field_value f existing = field_value f incoming)
                then acc
                else <[f := field_value f incoming]> acc) ∅.

(** ** Collaborators *)

Record Response := mkResponse { status : string; message : string }.

Inductive HTTPStatus := OK | INTERNAL_SERVER_ERROR.

(** Everything the controller imports: configuration constants, the entity
    mapper, the decoders behind [get_labels_list] and [get_assignees_list],
    the table collaborator, and the search and comment collaborators.
    [World] is the state of the database and of GitHub; a collaborator may
    read it, change it, and raise. *)
Class Env := {
  World : Type;
  Payload : Type;
  Similar : Type;
  REPLY_LABEL : string;
  ISSUE_TABLE_NAME : string;
  PROTECTED_FIELDS : gset Field;
  payload_action : Payload → option string;
  from_webhook_payload : Payload → Result Issue;
  decode_labels : string → list Dict;
  decode_assignees : string → list Dict;
  db_open_table : string → World → Result () * World;
  table_get : Z → World → Result (option Issue) * World;
  table_insert : Issue → World → Result () * World;
  table_update : FieldMap → Z → World → Result () * World;
  search_similar_issues : Issue → Z → World → Result (list Similar) * World;
  log_similar_issues : list Similar → Issue → World → Result () * World;
  should_send_comment :
    string → Issue → list Similar → World → Result bool * World;
  send_issue_comment : Issue → list Similar → World → Result () * World
}.

(** The effects are parametric in the type [W] of the world and the type
    [S] of a similar-issue result. *)
Section Effects.
Context {W S : Type}.

(** The calls the controller makes to its collaborators. *)
Inductive CallOf :=
  | open_table_call (name : string)
  | get_call (id : Z)
  | insert_call (issue : Issue)
  | update_call (changed_fields : FieldMap) (id : Z)
  | search_call (issue : Issue) (limit_per_field : Z)
  | log_similar_call (similar : list S) (issue : Issue)
  | should_send_call (action : string) (issue : Issue) (similar : list S)
  | send_comment_call (issue : Issue) (similar : list S).

(** A call together with the exception it raised, if any. *)
Definition EventOf : Type := CallOf * option exn.

Definition is_table_call (c : CallOf) : bool :=
  match c with
  | open_table_call _ | get_call _ | insert_call _ | update_call _ _ => true
  | _ => false
  end.

Definition is_write_call (c : CallOf) : bool :=
  match c with
  | insert_call _ | update_call _ _ => true
  | _ => false
  end.

Definition is_reply_call (c : CallOf) : bool :=
  match c with
  | search_call _ _ | log_similar_call _ _
  | should_send_call _ _ _ | send_comment_call _ _ => true
  | _ => false
  end.

Record StateOf := mkState { world : W; trace : list EventOf }.

(** State and exceptions. *)
Definition MOf (A : Type) : Type := StateOf → Result A * StateOf.

Definition ret {A} (a : A) : MOf A := λ s, (Ok a, s).

Definition raise {A} (e : exn) : MOf A := λ s, (Raise e, s).

Definition bind {A B} (m : MOf A) (k : A → MOf B) : MOf B :=
  λ s, match m s with
       | (Ok a, s') => k a s'
       | (Raise e, s') => (Raise e, s')
       end.

Definition lift {A} (r : Result A) : MOf A := λ s, (r, s).

(** A call to a collaborator: run it on the world and log it. *)
Definition call {A} (c : CallOf) (f : W → Result A * W) : MOf A :=
  λ s, let '(r, w) := f (world s) in
       (r, {| world := w; trace := trace s ++ [(c, raised r)] |}).

End Effects.

Arguments CallOf : clear implicits.
Arguments EventOf : clear implicits.
Arguments StateOf : clear implicits.
Arguments MOf : clear implicits.

Abbreviation Call := (CallOf Similar).
Abbreviation Event := (EventOf Similar).
Abbreviation State := (StateOf World Similar).
Abbreviation M := (MOf World Similar).

Declare Scope py_scope.
Notation "'let*' x ':=' m 'in' k" := (bind m (λ x, k))
  (at level 10, x name, m at level 100, k at level 200,
   format "'[v' 'let*'  x  ':='  m  'in' '/' k ']'") : py_scope.
Notation "m ';;' k" := (bind m (λ _, k))
  (at level 100, k at level 200, right associativity,
   format "'[v' m ';;' '/' k ']'") : py_scope.
Open Scope py_scope.

Section Reconciliation.
Context {E : Env}.

(** Modelled from the spec: [Issue.get_labels_list] decodes the serialized
    [labels] attribute into a list of descriptors and never raises.  The
    controller calls it on truthy attributes only. *)
Definition get_labels_list (i : Issue) : list Dict :=
  match labels i with Some s => decode_labels s | None => [] end.

(** Modelled from the spec: [Issue.get_assignees_list], as above. *)
Definition get_assignees_list (i : Issue) : list Dict :=
  match assignees i with Some s => decode_assignees s | None => [] end.

Definition diff_and_get_changed_fields (existing_issue issue : Issue)
  : FieldMap :=
  diff_fields PROTECTED_FIELDS existing_issue issue ISSUE_FIELDS.

(** [any(label.get('name') == config.REPLY_LABEL for label in labels_list)] *)
Definition any_reply_label (labels_list : list Dict) : bool :=
  existsb (λ label, bool_decide (label !! "name" = Some (VStr REPLY_LABEL)))
          labels_list.

(** [save_issue_to_database(issue, action)].  The [try ... except: raise]
    around the body logs and re-raises, so it is the identity here. *)
Definition save_issue_to_database (issue : Issue) (action : string) : M bool :=
  call (open_table_call ISSUE_TABLE_NAME) (db_open_table ISSUE_TABLE_NAME);;
  if String.eqb action "opened" then
    call (insert_call issue) (table_insert issue);;
    let labels_list :=
      if truthy (labels issue) then get_labels_list issue else [] in
    ret (any_reply_label labels_list)
  else
    let* existing_issue :=
      call (get_call (github_issue_id issue))
           (table_get (github_issue_id issue)) in
    let current_has_reply :=
      if truthy (labels issue)
      then any_reply_label (get_labels_list issue) else false in
    let db_has_reply :=
      match existing_issue with
      | Some existing =>
          if truthy (labels existing)
          then any_reply_label (get_labels_list existing) else false
      | None => false
      end in
    let should_reply := current_has_reply && negb db_has_reply in
    match existing_issue with
    | Some existing =>
        let changed_fields := diff_and_get_changed_fields existing issue in
        if decide (changed_fields = ∅) then ret should_reply
        else
          call (update_call changed_fields (github_issue_id issue))
               (table_update changed_fields (github_issue_id issue));;
          ret should_reply
    | None =>
        call (insert_call issue) (table_insert issue);;
        ret should_reply
    end.

(** The outcomes of the hook. *)
Definition skipped_outcome : Response * HTTPStatus :=
  ({| status := "success";
      message := "Issue skipped (not marked for reply)" |}, OK).

Definition processed_outcome : Response * HTTPStatus :=
  ({| status := "success"; message := "Issues webhook processed" |}, OK).

Definition error_outcome (e : exn) : Response * HTTPStatus :=
  ({| status := "error"; message := str_exn e |}, INTERNAL_SERVER_ERROR).

(** The logging prelude of the hook: the names of the labels and the logins
    of the assignees are read by subscript, which raises on a descriptor
    without the key. *)
Definition log_labels_and_assignees (issue : Issue) : M () :=
  (if truthy (labels issue)
   then lift (subscript_all (get_labels_list issue) "name");; ret ()
   else ret ());;
  (if truthy (assignees issue)
   then lift (subscript_all (get_assignees_list issue) "login");; ret ()
   else ret ()).

(** The inner [try] block.  Its value is the binding of the local variable
    [similar_issues] afterwards: bound once the search has returned, also
    when logging the results raises, and unbound when the search raised. *)
Definition search_block (issue : Issue) : M (option (list Similar)) :=
  λ s,
    match call (search_call issue 10) (search_similar_issues issue 10) s with
    | (Raise _, s1) => (Ok None, s1)
    | (Ok similar_issues, s1) =>
        match call (log_similar_call similar_issues issue)
                   (log_similar_issues similar_issues issue) s1 with
        | (_, s2) => (Ok (Some similar_issues), s2)
        end
    end.

(** Reading a local variable. *)
Definition read_local {A} (name : string) (binding : option A) : M A :=
  match binding with
  | Some v => ret v
  | None => raise (UnboundLocalError name)
  end.

(** The body of the outer [try] block; [Some r] is an early [return r]. *)
Definition hook_body (data : Payload) : M (option (Response * HTTPStatus)) :=
  let* issue := lift (from_webhook_payload data) in
  let action := default "unknown" (payload_action data) in
  log_labels_and_assignees issue;;
  let* should_reply := save_issue_to_database issue action in
  if negb should_reply then ret (Some skipped_outcome)
  else
    let* binding := search_block issue in
    let* similar_issues := read_local "similar_issues" binding in
    let* send := call (should_send_call action issue similar_issues)
                      (should_send_comment action issue similar_issues) in
    (if send
     then call (send_comment_call issue similar_issues)
               (send_issue_comment issue similar_issues)
     else ret ());;
    ret None.

(** [github_webhook_issues(data)] *)
Definition github_webhook_issues (data : Payload)
  : State → (Response * HTTPStatus) * State :=
  λ s,
    match hook_body data s with
    | (Raise e, s') => (error_outcome e, s')
    | (Ok (Some outcome), s') => (outcome, s')
    | (Ok None, s') => (processed_outcome, s')
    end.

End Reconciliation.

(** ** The keyed table, abstractly *)

(** Modelled from the spec: the table collaborator is an abstract keyed
    table ([get] by id, [insert], partial [update] by field-name map keyed
    on the id).  [table_rows] is the content of the table in a world; the
    laws say what a call that returns does to it.  Nothing is required of
    an [insert] under a key that is already taken. *)
Class TableLaws (E : Env) := {
  table_rows : World → gmap Z Issue;
  open_table_rows : ∀ name w w',
    db_open_table name w = (Ok (), w') → table_rows w' = table_rows w;
  get_rows : ∀ id w r w',
    table_get id w = (Ok r, w') →
    r = table_rows w !! id ∧ table_rows w' = table_rows w;
  insert_rows : ∀ i w w',
    table_insert i w = (Ok (), w') →
    table_rows w !! github_issue_id i = None →
    table_rows w' = <[github_issue_id i := i]> (table_rows w);
  update_rows : ∀ m id w w',
    table_update m id w = (Ok (), w') →
    table_rows w' = alter (apply_changes m) id (table_rows w)
}.

(** ** A reference instance *)

(** A concrete world to run the controller on: the table is a list of
    rows, each under its primary key, [down] names the collaborators that
    currently raise, and [comments] lists the issues commented so far. *)
Module Ref.

Record RefWorld := mkRefWorld {
  rows : list (Z * Issue);
  down : list string;
  comments : list Z
}.

(** The first row under a key. *)
Fixpoint row_of (id : Z) (t : list (Z * Issue)) : option Issue :=
  match t with
  | [] => None
  | (k, r) :: t' => if bool_decide (k = id) then Some r else row_of id t'
  end.

(** Patch the rows under a key. *)
Definition patch_rows (f : Issue → Issue) (id : Z) (t : list (Z * Issue))
  : list (Z * Issue) :=
  (λ kr : Z * Issue, if bool_decide (kr.1 = id) then (kr.1, f kr.2) else kr)
    <$> t.

Record RefPayload := mkRefPayload {
  p_action : option string;
  p_issue : option Issue
}.

Definition guarded {A} (name : string) (w : RefWorld)
    (f : RefWorld → Result A * RefWorld) : Result A * RefWorld :=
  if bool_decide (name ∈ down w)
  then (Raise (CollaboratorError (name ++ " failed")), w)
  else f w.

Definition set_rows (w : RefWorld) (t : list (Z * Issue)) : RefWorld :=
  {| rows := t; down := down w; comments := comments w |}.

Definition ref_open_table (name : string) (w : RefWorld)
  : Result () * RefWorld :=
  guarded "open_table" w (λ w, (Ok (), w)).

Definition ref_get (id : Z) (w : RefWorld) : Result (option Issue) * RefWorld :=
  guarded "get" w (λ w, (Ok (row_of id (rows w)), w)).

(** The id is the primary key: a second row under it is rejected. *)
Definition ref_insert (i : Issue) (w : RefWorld) : Result () * RefWorld :=
  guarded "insert" w (λ w,
    match row_of (github_issue_id i) (rows w) with
    | Some _ => (Raise (CollaboratorError "duplicate primary key"), w)
    | None => (Ok (), set_rows w ((github_issue_id i, i) :: rows w))
    end).

Definition ref_update (m : FieldMap) (id : Z) (w : RefWorld)
  : Result () * RefWorld :=
  guarded "update" w (λ w,
    (Ok (), set_rows w (patch_rows (apply_changes m) id (rows w)))).

(** Similar issues: the ids of the other stored issues with the same
    title. *)
Definition ref_search (i : Issue) (limit : Z) (w : RefWorld)
  : Result (list Z) * RefWorld :=
  guarded "search_similar_issues" w (λ w,
    (Ok (omap (λ kv : Z * Issue,
                 if bool_decide (title kv.2 = title i ∧
                                 kv.1 ≠ github_issue_id i)
                 then Some kv.1 else None)
              (rows w)), w)).

Definition ref_log_similar (similar : list Z) (i : Issue) (w : RefWorld)
  : Result () * RefWorld :=
  guarded "log_similar_issues" w (λ w, (Ok (), w)).

Definition ref_should_send (action : string) (i : Issue) (similar : list Z)
    (w : RefWorld) : Result bool * RefWorld :=
  guarded "should_send_comment" w (λ w, (Ok true, w)).

Definition ref_send (i : Issue) (similar : list Z) (w : RefWorld)
  : Result () * RefWorld :=
  guarded "send_issue_comment" w (λ w,
    (Ok (), {| rows := rows w; down := down w;
               comments := comments w ++ [github_issue_id i] |})).

(** Labels and assignees are serialized as names separated by commas. *)
Fixpoint split_commas (acc : string) (s : string) : list string :=
  match s with
  | EmptyString => [acc]
  | String c s' =>
      if Ascii.eqb c ","%char then acc :: split_commas EmptyString s'
      else split_commas (acc ++ String c EmptyString) s'
  end.

Definition ref_decode (key : string) (s : string) : list Dict :=
  (λ n, {[ key := VStr n ]}) <$> split_commas EmptyString s.

#[global] Instance ref_env : Env := {|
  World := RefWorld;
  Payload := RefPayload;
  Similar := Z;
  REPLY_LABEL := "needs-reply";
  ISSUE_TABLE_NAME := "issues";
  PROTECTED_FIELDS := {[F_github_issue_id; F_github_issue_number]};
  payload_action := p_action;
  from_webhook_payload := λ data,
    match p_issue data with
    | Some i => Ok i
    | None => Raise (KeyError "issue")
    end;
  decode_labels := ref_decode "name";
  decode_assignees := ref_decode "login";
  db_open_table := ref_open_table;
  table_get := ref_get;
  table_insert := ref_insert;
  table_update := ref_update;
  search_similar_issues := ref_search;
  log_similar_issues := ref_log_similar;
  should_send_comment := ref_should_send;
  send_issue_comment := ref_send
|}.

(** Issue #42 in several versions. *)
Definition issue42 (ttl : string) (lbls : option string) : Issue :=
  {| github_issue_id := 4200; github_issue_number := 42;
     repository_name := "hawkingrei/tiara"; title := ttl;
     author_login := "octocat"; state := "open";
     labels := lbls; assignees := None |}.

Definition event (action : string) (i : Issue) : RefPayload :=
  {| p_action := Some action; p_issue := Some i |}.

Definition world_of (l : list Issue) (failing : list string) : RefWorld :=
  {| rows := (λ i, (github_issue_id i, i)) <$> l;
     down := failing; comments := [] |}.

Definition start (w : RefWorld) : State := {| world := w; trace := [] |}.

(** The stored row, and incoming versions of it: labelled, labelled and
    retitled, and one that differs from the stored row in a protected
    field only. *)
Definition stored : Issue := issue42 "Crash on start" None.
Definition labelled : Issue := issue42 "Crash on start" (Some "bug,needs-reply").
Definition retitled : Issue :=
  issue42 "Crash on startup" (Some "bug,needs-reply").
Definition renumbered : Issue :=
  {| github_issue_id := 4200; github_issue_number := 43;
     repository_name := "hawkingrei/tiara"; title := "Crash on start";
     author_login := "octocat"; state := "open";
     labels := None; assignees := None |}.

Definition one_row (failing : list string) : RefWorld :=
  world_of [stored] failing.

Definition one_row_of (i : Issue) : RefWorld := world_of [i] [].

(** The same collaborators behind a decoder whose label descriptors carry
    the text under the key [title] and have no [name]. *)
Definition nameless_env : Env := {|
  World := RefWorld;
  Payload := RefPayload;
  Similar := Z;
  REPLY_LABEL := "needs-reply";
  ISSUE_TABLE_NAME := "issues";
  PROTECTED_FIELDS := {[F_github_issue_id; F_github_issue_number]};
  payload_action := p_action;
  from_webhook_payload := λ data,
    match p_issue data with
    | Some i => Ok i
    | None => Raise (KeyError "issue")
    end;
  decode_labels := ref_decode "title";
  decode_assignees := ref_decode "login";
  db_open_table := ref_open_table;
  table_get := ref_get;
  table_insert := ref_insert;
  table_update := ref_update;
  search_similar_issues := ref_search;
  log_similar_issues := ref_log_similar;
  should_send_comment := ref_should_send;
  send_issue_comment := ref_send
|}.

(** An event without an [action] key. *)
Definition event_without_action (i : Issue) : RefPayload :=
  {| p_action := None; p_issue := Some i |}.

End Ref.

(** ** Vocabulary of the properties *)

Section Vocabulary.
Context {E : Env}.

(** The events a computation adds to the trace. *)
Definition issued {A} (m : M A) (s : State) : list Event :=
  drop (length (trace s)) (trace (m s).2).

Definition hook_issued (data : Payload) (s : State) : list Event :=
  drop (length (trace s)) (trace (github_webhook_issues data s).2).

(** The state after a run that moved the world to [w] and issued [evs]. *)
Definition after (s : State) (w : World) (evs : list Event) : State :=
  {| world := w; trace := trace s ++ evs |}.

(** The value a step returns after a write whose result is [r]. *)
Definition and_then {A} (r : Result ()) (a : A) : Result A :=
  match r with Ok _ => Ok a | Raise e => Raise e end.

(** The label set of a record: the names of its decoded labels; a missing
    or falsy [labels] attribute is the empty set. *)
Definition label_names (r : Issue) : list PyVal :=
  if truthy (labels r)
  then omap (λ label : Dict, label !! "name") (get_labels_list r)
  else [].

Definition has_reply_label (r : Issue) : Prop :=
  VStr REPLY_LABEL ∈ label_names r.

(** The reply decision as the specification words it, on the previous
    label set ([None] on the creation path) and the incoming one. *)
Definition should_reply_rule (previous : option (list PyVal))
    (incoming : list PyVal) : Prop :=
  match previous with
  | None => VStr REPLY_LABEL ∈ incoming
  | Some previous' =>
      VStr REPLY_LABEL ∈ incoming ∧ VStr REPLY_LABEL ∉ previous'
  end.

(** The decision of the update path as a function of the two serialized
    [labels] attributes alone. *)
Definition labels_have_reply (serialized : option string) : bool :=
  match serialized with
  | Some l => if truthy (Some l) then any_reply_label (decode_labels l)
              else false
  | None => false
  end.

Definition reply_transition (incoming stored : option string) : bool :=
  labels_have_reply incoming && negb (labels_have_reply stored).

(** Two records agree outside the protected fields. *)
Definition differ_only_in_protected (r1 r2 : Issue) : Prop :=
  ∀ f, f ∉ PROTECTED_FIELDS → field_value f r1 = field_value f r2.

(** The trace of a successful lookup that found nothing or something. *)
Definition lookup_events (issue : Issue) : list Event :=
  [(open_table_call ISSUE_TABLE_NAME, None);
   (get_call (github_issue_id issue), None)].

(** [data.get('action', 'unknown')] *)
Definition event_action (data : Payload) : string :=
  default "unknown" (payload_action data).

(** The hook gets as far as the reconciliation step: the payload maps to
    [issue] and the logging prelude does not raise. *)
Definition reaches_reconciliation (data : Payload) (issue : Issue)
    (s : State) : Prop :=
  from_webhook_payload data = Ok issue ∧
  (log_labels_and_assignees issue s).1 = Ok ().

(** Every descriptor the logging prelude subscripts has its key. *)
Definition well_formed_descriptors (issue : Issue) : Prop :=
  (truthy (labels issue) = true →
   Forall (λ d : Dict, is_Some (d !! "name")) (get_labels_list issue)) ∧
  (truthy (assignees issue) = true →
   Forall (λ d : Dict, is_Some (d !! "login")) (get_assignees_list issue)).

(** The three calls of the reply path up to the comment decision. *)
Definition searched_events (action : string) (issue : Issue)
    (similar : list Similar) (rl : Result ()) (rs : Result bool)
  : list Event :=
  [(search_call issue 10, None);
   (log_similar_call similar issue, raised rl);
   (should_send_call action issue similar, raised rs)].

(** The claim that a failure on the reply path never gives an error
    outcome, at one delivery: persistence succeeded with a positive
    decision, and whenever a search or comment call raised, the outcome is
    still a success. *)
Definition reply_failures_never_error (data : Payload) (s : State) : Prop :=
  ∀ issue s1 c e,
    from_webhook_payload data = Ok issue →
    save_issue_to_database issue (event_action data) s = (Ok true, s1) →
    is_reply_call c = true →
    (c, Some e) ∈ hook_issued data s →
    status (github_webhook_issues data s).1.1 = "success".

(** The claim that an [opened] event for a stored id is handled as an
    update of the stored record rather than rejected: the step returns,
    and it does not insert a second row. *)
Definition opened_duplicate_treated_as_update (issue : Issue) (s : State)
  : Prop :=
  is_ok (save_issue_to_database issue "opened" s).1 = true ∧
  Forall (λ ev : Event,
            match ev.1 with insert_call _ => False | _ => True end)
         (issued (save_issue_to_database issue "opened") s).

End Vocabulary.

(** * Properties *)

(** ** The field diff and the partial update *)

Section DiffLemmas.
Context {E : Env}.

Lemma field_in_ISSUE_FIELDS (f : Field) : f ∈ ISSUE_FIELDS.
Proof. destruct f; unfold ISSUE_FIELDS; set_solver. Qed.

Lemma diff_fields_lookup (P : gset Field) (r i : Issue) (l : list Field)
    (f : Field) (v : PyVal) :
  diff_fields P r i l !! f = Some v ↔
  f ∈ l ∧ (f ∉ P) ∧ field_value f r ≠ field_value f i ∧ v = field_value f i.
Proof.
  induction l as [|g l IH]; simpl.
  - rewrite lookup_empty. split; [done|]. intros [H _]. by apply elem_of_nil in H.
  - rewrite elem_of_cons.
    destruct (decide (g ∈ P)) as [HgP|HgP].
    + rewrite IH. split; [naive_solver|].
      intros [[->|Hin] (HP & Hne & ->)]; [done|naive_solver].
    + destruct (decide (field_value g r = field_value g i)) as [Heq|Hne].
      * rewrite IH. split; [naive_solver|].
        intros [[->|Hin] (HP & Hne & ->)]; [done|naive_solver].
      * destruct (decide (g = f)) as [->|Hgf].
        -- rewrite lookup_insert_eq. naive_solver.
        -- rewrite lookup_insert_ne by done. rewrite IH. naive_solver.
Qed.

Lemma diff_lookup (r i : Issue) (f : Field) :
  diff_and_get_changed_fields r i !! f =
    if decide ((f ∉ PROTECTED_FIELDS) ∧ field_value f r ≠ field_value f i)
    then Some (field_value f i) else None.
Proof.
  unfold diff_and_get_changed_fields. case_decide as H.
  - apply diff_fields_lookup. pose proof (field_in_ISSUE_FIELDS f). naive_solver.
  - destruct (diff_fields _ _ _ _ !! f) as [v|] eqn:Hv; [|done].
    apply diff_fields_lookup in Hv. naive_solver.
Qed.

Lemma diff_empty_iff (r i : Issue) :
  diff_and_get_changed_fields r i = ∅ ↔ differ_only_in_protected r i.
Proof.
  split.
  - intros Hd f Hf.
    destruct (decide (field_value f r = field_value f i)) as [|Hne]; [done|].
    pose proof (diff_lookup r i f) as Hl.
    rewrite Hd, lookup_empty in Hl. rewrite decide_True in Hl; done.
  - intros Hd. apply map_empty. intros f. rewrite diff_lookup.
    apply decide_False. intros [HP Hne]. by apply Hne, Hd.
Qed.

Lemma opt_val_inj (a b : option string) : opt_val a = opt_val b → a = b.
Proof. destruct a, b; simpl; congruence. Qed.

(** Patching the stored row with the diff gives the incoming value on
    every field that is not protected and keeps the protected ones. *)
Lemma apply_changes_diff (r i : Issue) (f : Field) :
  field_value f (apply_changes (diff_and_get_changed_fields r i) r) =
    if decide (f ∈ PROTECTED_FIELDS) then field_value f r
    else field_value f i.
Proof.
  destruct f; simpl; unfold int_or, str_or, opt_or; rewrite diff_lookup;
    simpl; repeat case_decide; try done;
    try (by destruct (labels i)); try (by destruct (assignees i));
    match goal with
    | H : ¬ (_ ∧ ?a ≠ ?b) |- ?a = ?b =>
        destruct (decide (a = b)); [done | exfalso; apply H; by split]
    | H : (_ ∉ _) ∧ _, H' : _ ∈ _ |- _ => by destruct H
    end.
Qed.

End DiffLemmas.

(** ** Runs of the reconciliation step *)

Section RunLemmas.
Context {E : Env}.

Lemma issued_after {A} (m : M A) (s : State) (r : Result A) (w : World)
    (evs : list Event) :
  m s = (r, after s w evs) → issued m s = evs.
Proof. intros H. unfold issued. rewrite H. simpl. apply drop_app_length. Qed.

Lemma any_reply_label_elem (ls : list Dict) :
  any_reply_label ls = true ↔
  VStr REPLY_LABEL ∈ omap (λ label : Dict, label !! "name") ls.
Proof.
  unfold any_reply_label. induction ls as [|d ls IH]; simpl.
  - split; [done|]. intros H. by apply elem_of_nil in H.
  - rewrite orb_true_iff, IH, bool_decide_eq_true.
    destruct (d !! "name") as [v|]; rewrite ?elem_of_cons; naive_solver.
Qed.

Lemma labels_have_reply_update (r : Issue) :
  (if truthy (labels r) then any_reply_label (get_labels_list r) else false)
  = labels_have_reply (labels r).
Proof. unfold labels_have_reply, get_labels_list. by destruct (labels r). Qed.

Lemma labels_have_reply_creation (r : Issue) :
  any_reply_label (if truthy (labels r) then get_labels_list r else [])
  = labels_have_reply (labels r).
Proof.
  rewrite <- labels_have_reply_update. by destruct (truthy (labels r)).
Qed.

Lemma labels_have_reply_spec (r : Issue) :
  labels_have_reply (labels r) = true ↔ has_reply_label r.
Proof.
  rewrite <- labels_have_reply_update. unfold has_reply_label, label_names.
  destruct (truthy (labels r)).
  - apply any_reply_label_elem.
  - split; [done|]. intros H. by apply elem_of_nil in H.
Qed.

Lemma not_opened (action : string) :
  action ≠ "opened" → String.eqb action "opened" = false.
Proof. intros H. by apply String.eqb_neq. Qed.

Ltac run_save :=
  unfold save_issue_to_database, bind, call, ret, after, lookup_events;
  repeat (match goal with
          | H : _ = (_, _) |- _ => rewrite H
          | H : String.eqb _ _ = _ |- _ => rewrite H
          end; simpl);
  simpl; rewrite <- ?app_assoc; simpl.

Lemma save_open_raise issue action s e w1 :
  db_open_table ISSUE_TABLE_NAME (world s) = (Raise e, w1) →
  save_issue_to_database issue action s
  = (Raise e, after s w1 [(open_table_call ISSUE_TABLE_NAME, Some e)]).
Proof. intros Ho. by run_save. Qed.

Lemma save_opened_run issue s w1 r w2 :
  db_open_table ISSUE_TABLE_NAME (world s) = (Ok (), w1) →
  table_insert issue w1 = (r, w2) →
  save_issue_to_database issue "opened" s
  = (and_then r (labels_have_reply (labels issue)),
     after s w2 [(open_table_call ISSUE_TABLE_NAME, None);
                 (insert_call issue, raised r)]).
Proof.
  intros Ho Hi. run_save. destruct r as [[]|e]; simpl; rewrite <- ?app_assoc;
    simpl; [|done]. by rewrite labels_have_reply_creation.
Qed.

Lemma save_get_raise issue action s w1 e w2 :
  action ≠ "opened" →
  db_open_table ISSUE_TABLE_NAME (world s) = (Ok (), w1) →
  table_get (github_issue_id issue) w1 = (Raise e, w2) →
  save_issue_to_database issue action s
  = (Raise e, after s w2 [(open_table_call ISSUE_TABLE_NAME, None);
                          (get_call (github_issue_id issue), Some e)]).
Proof. intros Ha%not_opened Ho Hg. by run_save. Qed.

Lemma save_not_found_run issue action s w1 w2 r w3 :
  action ≠ "opened" →
  db_open_table ISSUE_TABLE_NAME (world s) = (Ok (), w1) →
  table_get (github_issue_id issue) w1 = (Ok None, w2) →
  table_insert issue w2 = (r, w3) →
  save_issue_to_database issue action s
  = (and_then r (labels_have_reply (labels issue)),
     after s w3 (lookup_events issue ++ [(insert_call issue, raised r)])).
Proof.
  intros Ha%not_opened Ho Hg Hi. run_save.
  destruct r as [[]|e]; simpl; rewrite <- ?app_assoc; simpl; [|done].
  by rewrite labels_have_reply_update, andb_true_r.
Qed.

Lemma save_found_unchanged issue action s w1 existing w2 :
  action ≠ "opened" →
  db_open_table ISSUE_TABLE_NAME (world s) = (Ok (), w1) →
  table_get (github_issue_id issue) w1 = (Ok (Some existing), w2) →
  diff_and_get_changed_fields existing issue = ∅ →
  save_issue_to_database issue action s
  = (Ok (reply_transition (labels issue) (labels existing)),
     after s w2 (lookup_events issue)).
Proof.
  intros Ha%not_opened Ho Hg Hd. run_save. rewrite decide_True by done.
  by rewrite !labels_have_reply_update.
Qed.

Lemma save_found_changed issue action s w1 existing w2 r w3 :
  action ≠ "opened" →
  db_open_table ISSUE_TABLE_NAME (world s) = (Ok (), w1) →
  table_get (github_issue_id issue) w1 = (Ok (Some existing), w2) →
  diff_and_get_changed_fields existing issue ≠ ∅ →
  table_update (diff_and_get_changed_fields existing issue)
               (github_issue_id issue) w2 = (r, w3) →
  save_issue_to_database issue action s
  = (and_then r (reply_transition (labels issue) (labels existing)),
     after s w3
       (lookup_events issue ++
        [(update_call (diff_and_get_changed_fields existing issue)
                      (github_issue_id issue), raised r)])).
Proof.
  intros Ha%not_opened Ho Hg Hd Hu. run_save. rewrite decide_False by done.
  unfold bind, call. simpl. rewrite Hu.
  destruct r as [[]|e]; simpl; rewrite <- ?app_assoc; simpl; [|done].
  by rewrite !labels_have_reply_update.
Qed.

(** The update path in one equation: the diff decides whether [update] is
    called, and the decision is [reply_transition] in both cases. *)
Lemma save_found_run issue action s w1 existing w2 :
  action ≠ "opened" →
  db_open_table ISSUE_TABLE_NAME (world s) = (Ok (), w1) →
  table_get (github_issue_id issue) w1 = (Ok (Some existing), w2) →
  save_issue_to_database issue action s
  = let d := diff_and_get_changed_fields existing issue in
    let b := reply_transition (labels issue) (labels existing) in
    if decide (d = ∅) then (Ok b, after s w2 (lookup_events issue))
    else
      let '(r, w3) := table_update d (github_issue_id issue) w2 in
      (and_then r b,
       after s w3 (lookup_events issue ++
                   [(update_call d (github_issue_id issue), raised r)])).
Proof.
  intros Ha Ho Hg. simpl. case_decide as Hd.
  - by eapply save_found_unchanged.
  - destruct (table_update _ _ w2) as [r w3] eqn:Hu.
    by eapply save_found_changed.
Qed.

Lemma reply_transition_spec (issue existing : Issue) :
  reply_transition (labels issue) (labels existing) = true ↔
  should_reply_rule (Some (label_names existing)) (label_names issue).
Proof.
  unfold reply_transition, should_reply_rule.
  rewrite andb_true_iff, negb_true_iff, <- not_true_iff_false.
  rewrite !labels_have_reply_spec. done.
Qed.

Lemma creation_decision_spec (issue : Issue) :
  labels_have_reply (labels issue) = true ↔
  should_reply_rule None (label_names issue).
Proof. apply labels_have_reply_spec. Qed.

(** Every run of the step: it issues table calls only, all of them
    returned except possibly the last one, whose exception is the result;
    a returned decision is one of the two decision functions. *)
Lemma save_cases issue action s :
  ∃ r w evs,
    save_issue_to_database issue action s = (r, after s w evs) ∧
    Forall (λ ev : Event, is_table_call ev.1 = true) evs ∧
    match r with
    | Ok b =>
        Forall (λ ev : Event, ev.2 = None) evs ∧
        (b = labels_have_reply (labels issue) ∨
         ∃ existing, b = reply_transition (labels issue) (labels existing))
    | Raise e =>
        ∃ (c : Call) (evs0 : list Event),
          evs = (evs0 ++ [(c, Some e)])%list ∧
          Forall (λ ev : Event, ev.2 = None) evs0
    end.
Proof.
  destruct (db_open_table ISSUE_TABLE_NAME (world s)) as [[[]|e] w1] eqn:Ho.
  2:{ eexists _, _, _. split; [by apply save_open_raise|].
      split; [by repeat constructor|]. by exists (open_table_call ISSUE_TABLE_NAME), []. }
  destruct (decide (action = "opened")) as [->|Ha].
  { destruct (table_insert issue w1) as [r w2] eqn:Hi.
    eexists _, _, _. split; [by eapply save_opened_run|].
    split; [by repeat constructor|].
    destruct r as [[]|e]; simpl.
    - split; [by repeat constructor | by left].
    - exists (insert_call issue), [(open_table_call ISSUE_TABLE_NAME, None)].
      split; [done | by repeat constructor]. }
  destruct (table_get (github_issue_id issue) w1) as [[[existing|]|e] w2] eqn:Hg.
  - rewrite (save_found_run _ _ _ _ _ _ Ha Ho Hg); simpl. case_decide as Hd.
    + eexists _, _, _. split; [done|]. split; [by repeat constructor|].
      split; [by repeat constructor | right; by exists existing].
    + destruct (table_update _ _ w2) as [r w3] eqn:Hu.
      eexists _, _, _. split; [done|]. split; [by repeat constructor|].
      destruct r as [[]|e]; simpl.
      * split; [by repeat constructor | right; by exists existing].
      * eexists _, (lookup_events issue). split; [done | by repeat constructor].
  - destruct (table_insert issue w2) as [r w3] eqn:Hi.
    eexists _, _, _. split; [by eapply save_not_found_run|].
    split; [by repeat constructor|].
    destruct r as [[]|e]; simpl.
    + split; [by repeat constructor | by left].
    + eexists _, (lookup_events issue). split; [done | by repeat constructor].
  - eexists _, _, _. split; [by eapply save_get_raise|].
    split; [by repeat constructor|].
    exists (get_call (github_issue_id issue)), [(open_table_call ISSUE_TABLE_NAME, None)].
    split; [done | by repeat constructor].
Qed.

End RunLemmas.

(** ** Runs of the hook *)

Section HookLemmas.
Context {E : Env}.

Lemma prelude_run issue s :
  (log_labels_and_assignees issue s).1 = Ok () →
  log_labels_and_assignees issue s = (Ok (), s).
Proof.
  unfold log_labels_and_assignees, bind, lift, ret.
  destruct (truthy (labels issue)), (truthy (assignees issue));
    repeat match goal with
           | |- context [subscript_all ?l ?k] => destruct (subscript_all l k)
           end; simpl; intros; by simplify_eq.
Qed.

Lemma hook_body_reaches data issue s :
  reaches_reconciliation data issue s →
  hook_body data s =
  bind (save_issue_to_database issue (event_action data))
       (λ should_reply,
          if negb should_reply then ret (Some skipped_outcome)
          else
            let* binding := search_block issue in
            let* similar_issues := read_local "similar_issues" binding in
            let* send :=
              call (should_send_call (event_action data) issue similar_issues)
                   (should_send_comment (event_action data) issue
                                        similar_issues) in
            (if send
             then call (send_comment_call issue similar_issues)
                       (send_issue_comment issue similar_issues)
             else ret ());;
            ret None) s.
Proof.
  intros [Hmap Hpre%prelude_run]. unfold hook_body, event_action.
  unfold bind at 1. unfold lift at 1. rewrite Hmap.
  unfold bind at 1. by rewrite Hpre.
Qed.

Lemma hook_save_raise data issue s e s' :
  reaches_reconciliation data issue s →
  save_issue_to_database issue (event_action data) s = (Raise e, s') →
  github_webhook_issues data s = (error_outcome e, s').
Proof.
  intros Hr Hs. unfold github_webhook_issues.
  rewrite (hook_body_reaches _ _ _ Hr). unfold bind at 1. by rewrite Hs.
Qed.

Lemma hook_skipped data issue s s' :
  reaches_reconciliation data issue s →
  save_issue_to_database issue (event_action data) s = (Ok false, s') →
  github_webhook_issues data s = (skipped_outcome, s').
Proof.
  intros Hr Hs. unfold github_webhook_issues.
  rewrite (hook_body_reaches _ _ _ Hr). unfold bind at 1. by rewrite Hs.
Qed.

(** The reply path when the search returns. *)
Lemma hook_reply_run data issue s s1 similar w2 rl w3 rs w4 :
  reaches_reconciliation data issue s →
  save_issue_to_database issue (event_action data) s = (Ok true, s1) →
  search_similar_issues issue 10 (world s1) = (Ok similar, w2) →
  log_similar_issues similar issue w2 = (rl, w3) →
  should_send_comment (event_action data) issue similar w3 = (rs, w4) →
  let searched :=
    [(search_call issue 10, None);
     (log_similar_call similar issue, raised rl);
     (should_send_call (event_action data) issue similar, raised rs)] in
  github_webhook_issues data s =
  match rs with
  | Raise e => (error_outcome e, after s1 w4 searched)
  | Ok false => (processed_outcome, after s1 w4 searched)
  | Ok true =>
      let '(rc, w5) := send_issue_comment issue similar w4 in
      (match rc with
       | Ok _ => processed_outcome
       | Raise e => error_outcome e
       end,
       after s1 w5
         (searched ++ [(send_comment_call issue similar, raised rc)]))
  end.
Proof.
  intros Hr Hs Hsearch Hlog Hsend. unfold github_webhook_issues.
  rewrite (hook_body_reaches _ _ _ Hr). unfold bind at 1. rewrite Hs. simpl.
  unfold bind, search_block, read_local, call, ret, after. simpl.
  rewrite Hsearch. simpl. rewrite Hlog. simpl. rewrite Hsend.
  destruct rs as [[]|e]; simpl; rewrite <- ?app_assoc; simpl; try done.
  destruct (send_issue_comment issue similar w4) as [[[]|e] w5]; simpl;
    by rewrite <- ?app_assoc.
Qed.

(** The reply path when the search raises: the handler of the inner [try]
    swallows the exception, and the read of [similar_issues] that follows
    finds the variable unbound. *)
Lemma hook_search_raise_run data issue s s1 e w2 :
  reaches_reconciliation data issue s →
  save_issue_to_database issue (event_action data) s = (Ok true, s1) →
  search_similar_issues issue 10 (world s1) = (Raise e, w2) →
  github_webhook_issues data s =
  (error_outcome (UnboundLocalError "similar_issues"),
   after s1 w2 [(search_call issue 10, Some e)]).
Proof.
  intros Hr Hs Hsearch. unfold github_webhook_issues.
  rewrite (hook_body_reaches _ _ _ Hr). unfold bind at 1. rewrite Hs. simpl.
  unfold bind, search_block, read_local, call, raise, after. simpl.
  by rewrite Hsearch.
Qed.

Lemma hook_issued_after data s outcome s0 w evs evs' :
  github_webhook_issues data s = (outcome, after s0 w evs') →
  trace s0 = (trace s ++ evs)%list →
  hook_issued data s = (evs ++ evs')%list.
Proof.
  intros H Ht. unfold hook_issued. rewrite H. simpl. rewrite Ht.
  rewrite <- app_assoc. apply drop_app_length.
Qed.

End HookLemmas.

(** ** The hook: skipping, failing, replying *)

Section HookClaims.
Context {E : Env}.

Lemma table_call_not_reply (c : Call) :
  is_table_call c = true → is_reply_call c = false.
Proof. by destruct c. Qed.

Lemma save_issues_no_reply_call issue action s :
  Forall (λ ev : Event, is_reply_call ev.1 = false)
         (issued (save_issue_to_database issue action) s).
Proof.
  destruct (save_cases issue action s) as (r & w & evs & Hrun & Htable & _).
  rewrite (issued_after _ _ _ _ _ Hrun).
  eapply Forall_impl; [done|]. intros ev. apply table_call_not_reply.
Qed.

Lemma hook_issued_of_save data issue s outcome :
  github_webhook_issues data s
    = (outcome, (save_issue_to_database issue (event_action data) s).2) →
  hook_issued data s
    = issued (save_issue_to_database issue (event_action data)) s.
Proof. intros H. unfold hook_issued, issued. by rewrite H. Qed.

(** C5: when the reconciliation step returns should-reply = false, the hook
    returns the skip outcome at once: status "success" (one of success,
    skipped, error) with the message "Issue skipped (not marked for
    reply)", the state is the one the step left, and no search or comment
    collaborator has been called. *)
Theorem skipped_when_no_reply data issue s s' :
  reaches_reconciliation data issue s →
  save_issue_to_database issue (event_action data) s = (Ok false, s') →
  github_webhook_issues data s
    = (({| status := "success";
           message := "Issue skipped (not marked for reply)" |}, OK), s') ∧
  status (github_webhook_issues data s).1.1 ∈ ["success"; "skipped"; "error"] ∧
  Forall (λ ev : Event, is_reply_call ev.1 = false) (hook_issued data s).
Proof.
  intros Hr Hs. pose proof (hook_skipped _ _ _ _ Hr Hs) as Hh.
  split; [done|]. split.
  - rewrite Hh. simpl. set_solver.
  - rewrite (hook_issued_of_save data issue s skipped_outcome).
    + apply save_issues_no_reply_call.
    + by rewrite Hs.
Qed.

(** C6: when a table operation (open, get, insert or update) raises during
    the reconciliation step, the step raises that exception instead of
    returning a decision, and the hook returns the error outcome (status
    "error", the exception's message, 500) in the state the step left,
    without having called a search or comment collaborator. *)
Theorem table_error_gives_error_outcome issue action s c e :
  is_table_call c = true →
  (c, Some e) ∈ issued (save_issue_to_database issue action) s →
  ∃ s',
    save_issue_to_database issue action s = (Raise e, s') ∧
    ∀ data,
      reaches_reconciliation data issue s →
      event_action data = action →
      github_webhook_issues data s
        = (({| status := "error"; message := str_exn e |},
            INTERNAL_SERVER_ERROR), s') ∧
      Forall (λ ev : Event, is_reply_call ev.1 = false) (hook_issued data s).
Proof.
  intros _ Hin.
  destruct (save_cases issue action s) as (r & w & evs & Hrun & _ & Hr).
  rewrite (issued_after _ _ _ _ _ Hrun) in Hin.
  assert (r = Raise e) as ->.
  { destruct r as [b|e0].
    - destruct Hr as [Hnone _]. rewrite Forall_forall in Hnone.
      by specialize (Hnone _ Hin).
    - destruct Hr as (c0 & evs0 & -> & Hnone).
      apply elem_of_app in Hin as [Hin|Hin].
      + rewrite Forall_forall in Hnone. by specialize (Hnone _ Hin).
      + apply list_elem_of_singleton in Hin. by simplify_eq. }
  eexists. split; [done|]. intros data Hreach <-.
  pose proof (hook_save_raise _ _ _ _ _ Hreach Hrun) as Hh. split; [done|].
  rewrite (hook_issued_of_save data issue s (error_outcome e)).
  - apply save_issues_no_reply_call.
  - by rewrite Hrun.
Qed.

(** C1 (amended): after a successful persistence with should-reply = true
    and a search that returned, an exception raised while logging the
    similar issues does not change the outcome; an exception raised by
    [should_send_comment] or by [send_issue_comment] reaches the outer
    handler and gives the error outcome; the outcome is the success outcome
    exactly when neither of the two raises. *)
Theorem comment_failure_gives_error_outcome
    data issue s s1 similar w2 rl w3 rs w4 :
  reaches_reconciliation data issue s →
  save_issue_to_database issue (event_action data) s = (Ok true, s1) →
  search_similar_issues issue 10 (world s1) = (Ok similar, w2) →
  log_similar_issues similar issue w2 = (rl, w3) →
  should_send_comment (event_action data) issue similar w3 = (rs, w4) →
  (github_webhook_issues data s).1 =
  match rs with
  | Raise e => error_outcome e
  | Ok false => processed_outcome
  | Ok true =>
      match (send_issue_comment issue similar w4).1 with
      | Ok _ => processed_outcome
      | Raise e => error_outcome e
      end
  end.
Proof.
  intros Hr Hs Hsearch Hlog Hsend.
  rewrite (hook_reply_run _ _ _ _ _ _ _ _ _ _ Hr Hs Hsearch Hlog Hsend).
  destruct rs as [[]|e]; try done.
  by destruct (send_issue_comment issue similar w4) as [[[]|e] w5].
Qed.

End HookClaims.

(** ** The reply decision *)

Section DecisionClaims.
Context {E : Env}.

Lemma and_then_ok {A} (r : Result ()) (a b : A) :
  and_then r a = Ok b → a = b ∧ r = Ok ().
Proof. destruct r as [[]|e]; simpl; intros; by simplify_eq. Qed.

(** A returned decision of the update path is [reply_transition]. *)
Lemma save_found_decision issue action s w1 existing w2 b s' :
  action ≠ "opened" →
  db_open_table ISSUE_TABLE_NAME (world s) = (Ok (), w1) →
  table_get (github_issue_id issue) w1 = (Ok (Some existing), w2) →
  save_issue_to_database issue action s = (Ok b, s') →
  b = reply_transition (labels issue) (labels existing).
Proof.
  intros Ha Ho Hg. rewrite (save_found_run _ _ _ _ _ _ Ha Ho Hg). simpl.
  case_decide; [by intros [= <- _]|].
  destruct (table_update _ _ w2) as [r w3]. intros [= Hb _].
  by apply and_then_ok in Hb as [<- _].
Qed.

(** The update path returns unless its [update] call raises. *)
Lemma save_found_returns issue action s w1 existing w2 :
  action ≠ "opened" →
  db_open_table ISSUE_TABLE_NAME (world s) = (Ok (), w1) →
  table_get (github_issue_id issue) w1 = (Ok (Some existing), w2) →
  diff_and_get_changed_fields existing issue = ∅ ∨
  is_ok (table_update (diff_and_get_changed_fields existing issue)
                      (github_issue_id issue) w2).1 = true →
  (save_issue_to_database issue action s).1
  = Ok (reply_transition (labels issue) (labels existing)).
Proof.
  intros Ha Ho Hg Hu. rewrite (save_found_run _ _ _ _ _ _ Ha Ho Hg). simpl.
  case_decide as Hd; [done|]. destruct Hu as [Hu|Hu]; [done|].
  by destruct (table_update _ _ w2) as [[[]|e] w3].
Qed.

(** C2: on a non-creation event whose id is found in the table, the
    returned decision is true iff the reply-trigger label is in the
    incoming label set and not in the stored one; it is false when the
    stored record already has the label, and false when the incoming one
    lacks it.  The step returns unless its update call raises. *)
Theorem update_reply_iff_label_added issue action s w1 existing w2 :
  action ≠ "opened" →
  db_open_table ISSUE_TABLE_NAME (world s) = (Ok (), w1) →
  table_get (github_issue_id issue) w1 = (Ok (Some existing), w2) →
  (∀ b s',
     save_issue_to_database issue action s = (Ok b, s') →
     (b = true ↔
      should_reply_rule (Some (label_names existing)) (label_names issue)) ∧
     (has_reply_label existing → b = false) ∧
     (¬ has_reply_label issue → b = false)) ∧
  (diff_and_get_changed_fields existing issue = ∅ ∨
   is_ok (table_update (diff_and_get_changed_fields existing issue)
                       (github_issue_id issue) w2).1 = true →
   is_ok (save_issue_to_database issue action s).1 = true).
Proof.
  intros Ha Ho Hg. split.
  - intros b s' Hs.
    rewrite (save_found_decision _ _ _ _ _ _ _ _ Ha Ho Hg Hs).
    pose proof (reply_transition_spec issue existing) as Hspec.
    split; [done|]. unfold should_reply_rule in Hspec.
    split; intros H; apply not_true_iff_false; rewrite Hspec;
      unfold has_reply_label in H; tauto.
  - intros Hu. by rewrite (save_found_returns _ _ _ _ _ _ Ha Ho Hg Hu).
Qed.

(** C9: on the update path the decision is a function of the two [labels]
    attributes alone: two incoming records with the same [labels], checked
    against the same stored record, get the same decision whatever their
    other fields, their actions, their diffs and the writes performed. *)
Theorem reply_decision_depends_on_labels_only
    issue1 issue2 action1 action2 s1 s2 w1 w1' existing w2 w2' :
  action1 ≠ "opened" →
  action2 ≠ "opened" →
  labels issue1 = labels issue2 →
  db_open_table ISSUE_TABLE_NAME (world s1) = (Ok (), w1) →
  table_get (github_issue_id issue1) w1 = (Ok (Some existing), w2) →
  db_open_table ISSUE_TABLE_NAME (world s2) = (Ok (), w1') →
  table_get (github_issue_id issue2) w1' = (Ok (Some existing), w2') →
  ∀ b1 b2 s1' s2',
    save_issue_to_database issue1 action1 s1 = (Ok b1, s1') →
    save_issue_to_database issue2 action2 s2 = (Ok b2, s2') →
    b1 = b2 ∧ b1 = reply_transition (labels issue1) (labels existing).
Proof.
  intros Ha1 Ha2 Hl Ho1 Hg1 Ho2 Hg2 b1 b2 s1' s2' Hs1 Hs2.
  rewrite (save_found_decision _ _ _ _ _ _ _ _ Ha1 Ho1 Hg1 Hs1).
  rewrite (save_found_decision _ _ _ _ _ _ _ _ Ha2 Ho2 Hg2 Hs2).
  by rewrite Hl.
Qed.

Lemma falsy_labels_no_reply (r : Issue) :
  truthy (labels r) = false → labels_have_reply (labels r) = false.
Proof. rewrite <- labels_have_reply_update. by intros ->. Qed.

(** C10: a missing or falsy [labels] attribute counts as the empty label
    set.  If the incoming one is falsy, every returned decision is false,
    and the step returns false when no table call raises.  If the stored
    one is missing or falsy and the incoming labels have the trigger
    label, the update path returns true (unless its update raises). *)
Theorem falsy_labels_are_the_empty_set issue action s :
  (truthy (labels issue) = false →
   (∀ b s', save_issue_to_database issue action s = (Ok b, s') → b = false) ∧
   (Forall (λ ev : Event, ev.2 = None)
           (issued (save_issue_to_database issue action) s) →
    (save_issue_to_database issue action s).1 = Ok false)) ∧
  (∀ w1 existing w2,
     action ≠ "opened" →
     db_open_table ISSUE_TABLE_NAME (world s) = (Ok (), w1) →
     table_get (github_issue_id issue) w1 = (Ok (Some existing), w2) →
     truthy (labels existing) = false →
     has_reply_label issue →
     (∀ b s', save_issue_to_database issue action s = (Ok b, s') → b = true) ∧
     (diff_and_get_changed_fields existing issue = ∅ ∨
      is_ok (table_update (diff_and_get_changed_fields existing issue)
                          (github_issue_id issue) w2).1 = true →
      (save_issue_to_database issue action s).1 = Ok true)).
Proof.
  split.
  - intros Hfalsy%falsy_labels_no_reply.
    destruct (save_cases issue action s) as (r & w & evs & Hrun & _ & Hr).
    assert (∀ b, r = Ok b → b = false) as Hfalse.
    { intros b ->. destruct Hr as [_ [->|[existing ->]]]; [done|].
      unfold reply_transition. by rewrite Hfalsy. }
    split.
    + intros b s' Hs. rewrite Hrun in Hs. apply Hfalse. congruence.
    + rewrite (issued_after _ _ _ _ _ Hrun), Hrun. simpl. intros Hnone.
      destruct r as [b|e]; [by rewrite (Hfalse b)|].
      destruct Hr as (c & evs0 & -> & _).
      rewrite Forall_app, Forall_singleton in Hnone. by destruct Hnone.
  - intros w1 existing w2 Ha Ho Hg Hfalsy%falsy_labels_no_reply Hhas.
    apply labels_have_reply_spec in Hhas.
    assert (reply_transition (labels issue) (labels existing) = true) as Ht.
    { unfold reply_transition. by rewrite Hhas, Hfalsy. }
    split.
    + intros b s' Hs.
      rewrite (save_found_decision _ _ _ _ _ _ _ _ Ha Ho Hg Hs). exact Ht.
    + intros Hu. rewrite (save_found_returns _ _ _ _ _ _ Ha Ho Hg Hu).
      by rewrite Ht.
Qed.

End DecisionClaims.

(** ** Writes, re-delivery and protected fields *)

Section TableClaims.
Context {E : Env} {L : TableLaws E}.

Lemma labels_of_field_value (r1 r2 : Issue) :
  field_value F_labels r1 = field_value F_labels r2 → labels r1 = labels r2.
Proof. apply opt_val_inj. Qed.

Lemma diff_after_patch (existing issue : Issue) :
  diff_and_get_changed_fields
    (apply_changes (diff_and_get_changed_fields existing issue) existing)
    issue = ∅.
Proof.
  apply diff_empty_iff. intros f Hf. rewrite apply_changes_diff.
  by rewrite decide_False.
Qed.

(** What the table holds under the id after a non-creation delivery that
    returned: a row whose diff with the delivered record is empty. *)
Lemma delivered_row issue action s b s1 :
  action ≠ "opened" →
  save_issue_to_database issue action s = (Ok b, s1) →
  ∃ r1,
    table_rows (world s1) !! github_issue_id issue = Some r1 ∧
    diff_and_get_changed_fields r1 issue = ∅ ∧
    (F_labels ∉ PROTECTED_FIELDS → labels r1 = labels issue).
Proof.
  intros Ha.
  destruct (db_open_table ISSUE_TABLE_NAME (world s)) as [[[]|e] w1] eqn:Ho;
    [|by rewrite (save_open_raise _ _ _ _ _ Ho)].
  destruct (table_get (github_issue_id issue) w1) as [[[existing|]|e] w2] eqn:Hg;
    [| |by rewrite (save_get_raise _ _ _ _ _ _ Ha Ho Hg)].
  - destruct (get_rows _ _ _ _ Hg) as [Hrow Hsame].
    rewrite (save_found_run _ _ _ _ _ _ Ha Ho Hg). simpl. case_decide as Hd.
    + intros [= _ <-]. exists existing. simpl. rewrite Hsame.
      split; [done|]. split; [done|]. intros Hl.
      apply labels_of_field_value. by apply diff_empty_iff.
    + destruct (table_update _ _ w2) as [[[]|e] w3] eqn:Hu; simpl; [|done].
      intros [= _ <-]. simpl. rewrite (update_rows _ _ _ _ Hu), Hsame.
      rewrite lookup_alter_eq, <- Hrow. simpl. eexists. split; [done|].
      split; [apply diff_after_patch|]. intros Hl.
      apply labels_of_field_value. rewrite apply_changes_diff.
      by rewrite decide_False.
  - destruct (get_rows _ _ _ _ Hg) as [Hrow Hsame].
    destruct (table_insert issue w2) as [[[]|e] w3] eqn:Hi;
      rewrite (save_not_found_run _ _ _ _ _ _ _ Ha Ho Hg Hi); simpl; [|done].
    intros [= _ <-]. simpl. exists issue.
    rewrite (insert_rows _ _ _ Hi) by (by rewrite Hsame).
    rewrite lookup_insert_eq. split; [done|]. split; [|done].
    by apply diff_empty_iff.
Qed.

(** Delivering the same non-creation event again, right after a delivery
    that returned: the lookup finds a row with an empty diff, no write is
    issued, the table is unchanged and the decision is false. *)
Lemma redelivery_is_a_no_op issue action s b1 s1 w1 r w2 :
  action ≠ "opened" →
  F_labels ∉ PROTECTED_FIELDS →
  save_issue_to_database issue action s = (Ok b1, s1) →
  db_open_table ISSUE_TABLE_NAME (world s1) = (Ok (), w1) →
  table_get (github_issue_id issue) w1 = (Ok r, w2) →
  save_issue_to_database issue action s1
    = (Ok false, after s1 w2 (lookup_events issue)) ∧
  table_rows w2 = table_rows (world s1).
Proof.
  intros Ha Hl Hs Ho Hg.
  destruct (delivered_row _ _ _ _ _ Ha Hs) as (r1 & Hrow & Hd & Hlab).
  destruct (get_rows _ _ _ _ Hg) as [-> Hsame].
  rewrite (open_table_rows _ _ _ Ho) in Hg, Hsame. rewrite Hrow in Hg.
  split; [|done].
  rewrite (save_found_unchanged _ _ _ _ _ _ Ha Ho Hg Hd).
  rewrite (Hlab Hl). unfold reply_transition.
  by rewrite andb_negb_r.
Qed.

(** C3: on the creation path -- the action is 'opened', or it is not and
    the lookup finds no record -- the step inserts the incoming issue, and
    when the insert returns the decision is true iff the reply-trigger
    label is in the incoming labels (the rule with no previous labels);
    before the insert it has issued no write, and after it the table holds
    the incoming record under the id when the id was not taken. *)
Theorem creation_path_inserts_and_decides issue action s w1 w2 r w3 :
  db_open_table ISSUE_TABLE_NAME (world s) = (Ok (), w1) →
  (action = "opened" ∧ w2 = w1) ∨
  (action ≠ "opened" ∧
   table_get (github_issue_id issue) w1 = (Ok None, w2)) →
  table_insert issue w2 = (r, w3) →
  ∃ (b : bool) (evs : list Event),
    save_issue_to_database issue action s
      = (and_then r b,
         after s w3 (evs ++ [(insert_call issue, raised r)])) ∧
    Forall (λ ev : Event, is_write_call ev.1 = false) evs ∧
    (b = true ↔ should_reply_rule None (label_names issue)) ∧
    (r = Ok () →
     action ≠ "opened" ∨ table_rows w1 !! github_issue_id issue = None →
     table_rows w3 !! github_issue_id issue = Some issue).
Proof.
  intros Ho Hpath Hi.
  assert (r = Ok () →
          action ≠ "opened" ∨ table_rows w1 !! github_issue_id issue = None →
          table_rows w3 !! github_issue_id issue = Some issue) as Hstored.
  { intros -> Hfresh.
    assert (table_rows w2 !! github_issue_id issue = None) as Hnone.
    { destruct Hpath as [[-> ->]|[Ha Hg]].
      - by destruct Hfresh.
      - destruct (get_rows _ _ _ _ Hg) as [Hrow ->]. by rewrite <- Hrow. }
    rewrite (insert_rows _ _ _ Hi Hnone). apply lookup_insert_eq. }
  destruct Hpath as [[-> ->]|[Ha Hg]].
  - exists (labels_have_reply (labels issue)),
           [(open_table_call ISSUE_TABLE_NAME, None)].
    split; [by eapply save_opened_run|].
    split; [by repeat constructor|].
    split; [apply creation_decision_spec | done].
  - exists (labels_have_reply (labels issue)), (lookup_events issue).
    split; [by eapply save_not_found_run|].
    split; [by repeat constructor|].
    split; [apply creation_decision_spec | done].
Qed.

(** C4: on a non-creation event whose id is found, an update call is
    issued iff the field diff is not empty, and it is the only write.
    Consequently, when the same event is delivered again right after a
    delivery that returned, the second delivery issues no write, leaves
    the table unchanged and returns should-reply = false. *)
Theorem write_iff_diff_and_redelivery issue action s w1 existing w2 :
  action ≠ "opened" →
  db_open_table ISSUE_TABLE_NAME (world s) = (Ok (), w1) →
  table_get (github_issue_id issue) w1 = (Ok (Some existing), w2) →
  (Exists (λ ev : Event, is_write_call ev.1 = true)
          (issued (save_issue_to_database issue action) s) ↔
   diff_and_get_changed_fields existing issue ≠ ∅) ∧
  Forall (λ ev : Event, is_write_call ev.1 = true →
                        ev.1 = update_call
                                 (diff_and_get_changed_fields existing issue)
                                 (github_issue_id issue))
         (issued (save_issue_to_database issue action) s) ∧
  (F_labels ∉ PROTECTED_FIELDS →
   ∀ b1 s1 w1' r w2',
     save_issue_to_database issue action s = (Ok b1, s1) →
     db_open_table ISSUE_TABLE_NAME (world s1) = (Ok (), w1') →
     table_get (github_issue_id issue) w1' = (Ok r, w2') →
     save_issue_to_database issue action s1
       = (Ok false, after s1 w2' (lookup_events issue)) ∧
     Forall (λ ev : Event, is_write_call ev.1 = false)
            (issued (save_issue_to_database issue action) s1) ∧
     table_rows w2' = table_rows (world s1)).
Proof.
  intros Ha Ho Hg.
  pose proof (save_found_run _ _ _ _ _ _ Ha Ho Hg) as Hrun. simpl in Hrun.
  split; [|split].
  - case_decide as Hd.
    + rewrite (issued_after _ _ _ _ _ Hrun). split; [|done].
      intros Hex. apply Exists_exists in Hex as (ev & Hin & Hw).
      unfold lookup_events in Hin. set_solver.
    + destruct (table_update _ _ w2) as [r w3].
      rewrite (issued_after _ _ _ _ _ Hrun). split; [done|]. intros _.
      do 2 apply Exists_cons_tl. by apply Exists_cons_hd.
  - case_decide as Hd.
    + rewrite (issued_after _ _ _ _ _ Hrun). by repeat constructor.
    + destruct (table_update _ _ w2) as [r w3].
      rewrite (issued_after _ _ _ _ _ Hrun). by repeat constructor.
  - intros Hl b1 s1 w1' r w2' Hs Ho' Hg'.
    destruct (redelivery_is_a_no_op _ _ _ _ _ _ _ _ Ha Hl Hs Ho' Hg')
      as [Hagain Hrows].
    split; [done|]. split; [|done].
    rewrite (issued_after _ _ _ _ _ Hagain). by repeat constructor.
Qed.

(** C7: the field diff never has a protected field as a key; two records
    that differ only in protected fields have an empty diff, and then the
    update path issues no write; and after an update-path delivery that
    returned, the stored row has the protected fields of the row found,
    whatever the incoming record carried for them. *)
Theorem protected_fields_survive_update :
  (∀ existing issue f,
     f ∈ PROTECTED_FIELDS →
     diff_and_get_changed_fields existing issue !! f = None) ∧
  (∀ existing issue,
     differ_only_in_protected existing issue →
     diff_and_get_changed_fields existing issue = ∅) ∧
  (∀ issue action s w1 existing w2,
     action ≠ "opened" →
     db_open_table ISSUE_TABLE_NAME (world s) = (Ok (), w1) →
     table_get (github_issue_id issue) w1 = (Ok (Some existing), w2) →
     (differ_only_in_protected existing issue →
      Forall (λ ev : Event, is_write_call ev.1 = false)
             (issued (save_issue_to_database issue action) s)) ∧
     (∀ b s',
        save_issue_to_database issue action s = (Ok b, s') →
        ∃ stored,
          table_rows (world s') !! github_issue_id issue = Some stored ∧
          ∀ f, f ∈ PROTECTED_FIELDS →
               field_value f stored = field_value f existing)).
Proof.
  split; [|split].
  - intros existing issue f Hf. rewrite diff_lookup.
    apply decide_False. by intros [Hnot _].
  - intros existing issue. apply diff_empty_iff.
  - intros issue action s w1 existing w2 Ha Ho Hg.
    pose proof (save_found_run _ _ _ _ _ _ Ha Ho Hg) as Hrun. simpl in Hrun.
    destruct (get_rows _ _ _ _ Hg) as [Hrow Hsame]. split.
    + intros Hd%diff_empty_iff. rewrite decide_True in Hrun by done.
      rewrite (issued_after _ _ _ _ _ Hrun). by repeat constructor.
    + intros b s'. rewrite Hrun. case_decide as Hd.
      * intros [= _ <-]. exists existing. simpl. by rewrite Hsame.
      * destruct (table_update _ _ w2) as [[[]|e] w3] eqn:Hu; simpl; [|done].
        intros [= _ <-]. simpl. rewrite (update_rows _ _ _ _ Hu), Hsame.
        rewrite lookup_alter_eq, <- Hrow. simpl. eexists. split; [done|].
        intros f Hf. rewrite apply_changes_diff. by rewrite decide_True.
Qed.

End TableClaims.

Section OpenedClaims.
Context {E : Env}.

(** C8 (amended): on an 'opened' event, whether or not the id already has
    a record, the step opens the table and issues one unconditional insert
    of the incoming record, with no lookup and no update; it returns (the
    creation decision) iff that insert returns and raises the insert's
    exception otherwise. *)
Theorem opened_event_inserts_unconditionally issue s w1 r w2 :
  db_open_table ISSUE_TABLE_NAME (world s) = (Ok (), w1) →
  table_insert issue w1 = (r, w2) →
  save_issue_to_database issue "opened" s
    = (and_then r (labels_have_reply (labels issue)),
       after s w2 [(open_table_call ISSUE_TABLE_NAME, None);
                   (insert_call issue, raised r)]) ∧
  (is_ok (save_issue_to_database issue "opened" s).1 = is_ok r).
Proof.
  intros Ho Hi. rewrite (save_opened_run _ _ _ _ _ Ho Hi).
  split; [done|]. by destruct r as [[]|e].
Qed.

End OpenedClaims.

(** ** The reference instance: laws, examples and counterexamples *)

Section RefLaws.
Import Ref.

Lemma row_of_lookup id (t : list (Z * Issue)) :
  (list_to_map t : gmap Z Issue) !! id = row_of id t.
Proof.
  induction t as [|[k r] t IH]; simpl; [done|]. case_bool_decide as Hk.
  - subst. apply lookup_insert_eq.
  - by rewrite lookup_insert_ne.
Qed.

Lemma patch_rows_alter f id (t : list (Z * Issue)) :
  (list_to_map (patch_rows f id t) : gmap Z Issue)
  = alter f id (list_to_map t).
Proof.
  induction t as [|[k r] t IH]; simpl.
  - by rewrite alter_empty.
  - fold (patch_rows f id t). case_bool_decide as Hk; simpl.
    + subst. rewrite alter_insert_eq, IH. apply map_eq. intros j.
      destruct (decide (j = id)) as [->|Hj].
      * by rewrite !lookup_insert_eq.
      * by rewrite !lookup_insert_ne, lookup_alter_ne.
    + rewrite alter_insert_ne by done. by rewrite IH.
Qed.

Lemma ref_open_table_rows name (w w' : RefWorld) :
  ref_open_table name w = (Ok (), w') → rows w' = rows w.
Proof.
  unfold ref_open_table, guarded. case_bool_decide; intros; by simplify_eq.
Qed.

Lemma ref_get_rows id (w : RefWorld) r w' :
  ref_get id w = (Ok r, w') →
  r = (list_to_map (rows w) : gmap Z Issue) !! id ∧ rows w' = rows w.
Proof.
  unfold ref_get, guarded. rewrite row_of_lookup.
  case_bool_decide; intros; by simplify_eq.
Qed.

Lemma ref_insert_rows i (w w' : RefWorld) :
  ref_insert i w = (Ok (), w') →
  (list_to_map (rows w) : gmap Z Issue) !! github_issue_id i = None →
  (list_to_map (rows w') : gmap Z Issue)
  = <[github_issue_id i := i]> (list_to_map (rows w)).
Proof.
  unfold ref_insert, guarded. rewrite row_of_lookup.
  case_bool_decide; [done|].
  intros Hins Hnone. rewrite Hnone in Hins. by simplify_eq.
Qed.

Lemma ref_update_rows m id (w w' : RefWorld) :
  ref_update m id w = (Ok (), w') →
  (list_to_map (rows w') : gmap Z Issue)
  = alter (apply_changes m) id (list_to_map (rows w)).
Proof.
  unfold ref_update, guarded. case_bool_decide; [done|].
  intros [= <-]. simpl. apply patch_rows_alter.
Qed.

End RefLaws.

Lemma ref_open_table_map name (w w' : Ref.RefWorld) :
  Ref.ref_open_table name w = (Ok (), w') →
  (list_to_map (Ref.rows w') : gmap Z Issue) = list_to_map (Ref.rows w).
Proof. by intros ->%ref_open_table_rows. Qed.

Lemma ref_get_map id (w : Ref.RefWorld) r w' :
  Ref.ref_get id w = (Ok r, w') →
  r = (list_to_map (Ref.rows w) : gmap Z Issue) !! id ∧
  (list_to_map (Ref.rows w') : gmap Z Issue) = list_to_map (Ref.rows w).
Proof. by intros [-> ->]%ref_get_rows. Qed.

#[global] Instance ref_table_laws : TableLaws Ref.ref_env := {|
  table_rows := (λ w, list_to_map (Ref.rows w))
                : @World Ref.ref_env → gmap Z Issue;
  open_table_rows := ref_open_table_map;
  get_rows := ref_get_map;
  insert_rows := ref_insert_rows;
  update_rows := ref_update_rows
|}.

Section RefExamples.
Import Ref.

Ltac evaluate := vm_compute; reflexivity.
Ltac find_event :=
  vm_compute; repeat first [apply list_elem_of_here | apply list_elem_of_further].

(** C1, counterexample: issue 4200 is opened with the reply label, the
    insert succeeds and the decision is true, but [send_issue_comment]
    raises: the hook answers with the error outcome. *)
Lemma comment_failure_counterexample :
  ¬ reply_failures_never_error (E := ref_env)
      (event "opened" labelled)
      (start (world_of [] ["send_issue_comment"])).
Proof.
  intros Hclaim.
  pose (s := start (world_of [] ["send_issue_comment"])).
  pose (s1 := (save_issue_to_database labelled "opened" s).2).
  assert (save_issue_to_database labelled (event_action (event "opened" labelled)) s
          = (Ok true, s1)) as Hs by evaluate.
  assert ((send_comment_call labelled [],
           Some (CollaboratorError "send_issue_comment failed"))
          ∈ hook_issued (E := ref_env) (event "opened" labelled) s) as Hin by find_event.
  specialize (Hclaim labelled s1 (send_comment_call labelled [])
                     (CollaboratorError "send_issue_comment failed")
                     eq_refl Hs eq_refl Hin).
  vm_compute in Hclaim. discriminate.
Qed.

(** C1, witness: the same delivery; the comment sender's exception is the
    outcome. *)
Lemma comment_failure_gives_error_outcome_witness :
  (github_webhook_issues (E := ref_env)
     (event "opened" labelled)
     (start (world_of [] ["send_issue_comment"]))).1
  = error_outcome (CollaboratorError "send_issue_comment failed").
Proof.
  pose (data := event "opened" labelled).
  pose (s := start (world_of [] ["send_issue_comment"])).
  pose (s1 := (save_issue_to_database labelled "opened" s).2).
  refine (comment_failure_gives_error_outcome (E := ref_env)
            data labelled s s1 [] (world s1) (Ok ()) (world s1)
            (Ok true) (world s1) _ _ _ _ _).
  - split; evaluate.
  - evaluate.
  - evaluate.
  - evaluate.
  - evaluate.
Defined.

(** The slip next to it: with the search down, the inner handler swallows
    the exception and the unbound [similar_issues] fails the event. *)
Lemma search_failure_example :
  (github_webhook_issues (E := ref_env)
     (event "opened" labelled)
     (start (world_of [] ["search_similar_issues"]))).1
  = error_outcome (UnboundLocalError "similar_issues").
Proof. evaluate. Qed.

(** C5, witness: an 'edited' event identical to the stored row. *)
Lemma skipped_when_no_reply_witness :
  github_webhook_issues (E := ref_env) (event "edited" stored) (start (one_row []))
  = (skipped_outcome,
     (save_issue_to_database stored "edited" (start (one_row []))).2).
Proof.
  apply (skipped_when_no_reply (E := ref_env) (event "edited" stored) stored).
  - split; evaluate.
  - evaluate.
Defined.

(** C6, witness: the lookup raises. *)
Lemma table_error_gives_error_outcome_witness :
  (github_webhook_issues (E := ref_env) (event "edited" labelled)
                         (start (one_row ["get"]))).1
  = error_outcome (CollaboratorError "get failed").
Proof.
  destruct (table_error_gives_error_outcome
              labelled "edited" (start (one_row ["get"]))
              (get_call 4200) (CollaboratorError "get failed"))
    as (s' & _ & Hhook).
  - reflexivity.
  - find_event.
  - destruct (Hhook (event "edited" labelled)) as [-> _].
    + split; evaluate.
    + reflexivity.
    + reflexivity.
Defined.

(** C2, witness: the stored row has no labels, the incoming one has the
    reply label. *)
Lemma update_reply_iff_label_added_witness :
  is_ok (save_issue_to_database labelled "labeled" (start (one_row []))).1
  = true.
Proof.
  apply (update_reply_iff_label_added
           labelled "labeled" (start (one_row [])) (one_row []) stored
           (one_row [])).
  - done.
  - evaluate.
  - evaluate.
  - right. evaluate.
Defined.

(** C3, witness: a 'labeled' event for an id the table does not hold. *)
Lemma creation_path_inserts_and_decides_witness :
  ∃ (b : bool) (evs : list Event),
    save_issue_to_database labelled "labeled" (start (world_of [] []))
      = (and_then (Ok ()) b,
         after (start (world_of [] [])) (one_row_of labelled)
               (evs ++ [(insert_call labelled, None)])) ∧
    Forall (λ ev : Event, is_write_call ev.1 = false) evs ∧
    (b = true ↔ should_reply_rule None (label_names labelled)) ∧
    (Ok () = Ok () →
     "labeled" ≠ "opened" ∨
     table_rows (world_of [] []) !! github_issue_id labelled = None →
     table_rows (one_row_of labelled) !! github_issue_id labelled
     = Some labelled).
Proof.
  apply (creation_path_inserts_and_decides
           labelled "labeled" (start (world_of [] [])) (world_of [] [])
           (world_of [] []) (Ok ()) (one_row_of labelled)).
  - evaluate.
  - right. split; [done | evaluate].
  - evaluate.
Defined.

(** C9, witness: two deliveries with the same labels, one of them
    retitled and under another action. *)
Lemma reply_decision_depends_on_labels_only_witness :
  true = true ∧ true = reply_transition (labels labelled) (labels stored).
Proof.
  refine (reply_decision_depends_on_labels_only
            labelled retitled "labeled" "edited"
            (start (one_row [])) (start (one_row []))
            (one_row []) (one_row []) stored (one_row []) (one_row [])
            _ _ _ _ _ _ _ true true
            (save_issue_to_database labelled "labeled" (start (one_row []))).2
            (save_issue_to_database retitled "edited" (start (one_row []))).2
            _ _).
  - done.
  - done.
  - reflexivity.
  - evaluate.
  - evaluate.
  - evaluate.
  - evaluate.
  - evaluate.
  - evaluate.
Defined.

(** C10, witness: an 'opened' event without labels, and a 'labeled' event
    against a stored row without labels. *)
Lemma falsy_labels_are_the_empty_set_witness :
  (save_issue_to_database stored "opened" (start (world_of [] []))).1
    = Ok false ∧
  (save_issue_to_database labelled "labeled" (start (one_row []))).1
    = Ok true.
Proof.
  split.
  - apply (falsy_labels_are_the_empty_set
             stored "opened" (start (world_of [] []))).
    + reflexivity.
    + vm_compute. by repeat constructor.
  - apply (falsy_labels_are_the_empty_set
             labelled "labeled" (start (one_row []))) with
      (w1 := one_row []) (existing := stored) (w2 := one_row []).
    + done.
    + evaluate.
    + evaluate.
    + reflexivity.
    + find_event.
    + right. evaluate.
Defined.

Lemma ref_labels_not_protected : F_labels ∉ @PROTECTED_FIELDS ref_env.
Proof. simpl. set_solver. Qed.

(** C4, witness: the 'labeled' event delivered twice. *)
Lemma write_iff_diff_and_redelivery_witness :
  let s1 := (save_issue_to_database labelled "labeled"
                                    (start (one_row []))).2 in
  save_issue_to_database labelled "labeled" s1
    = (Ok false, after s1 (world s1) (lookup_events labelled)) ∧
  Forall (λ ev : Event, is_write_call ev.1 = false)
         (issued (save_issue_to_database labelled "labeled") s1) ∧
  table_rows (world s1) = table_rows (world s1).
Proof.
  intros s1.
  destruct (write_iff_diff_and_redelivery
              labelled "labeled" (start (one_row [])) (one_row []) stored
              (one_row [])) as (_ & _ & Hagain).
  - done.
  - evaluate.
  - evaluate.
  - apply (Hagain ref_labels_not_protected true s1 (world s1)
                  (Some labelled) (world s1)).
    + evaluate.
    + evaluate.
    + evaluate.
Defined.

Lemma renumbered_differs_in_protected_only :
  differ_only_in_protected stored renumbered.
Proof.
  intros f Hf. destruct f; try reflexivity.
  exfalso. apply Hf. simpl. set_solver.
Qed.

(** C7, witness: the incoming record carries another issue number. *)
Lemma protected_fields_survive_update_witness :
  let s := start (one_row []) in
  Forall (λ ev : Event, is_write_call ev.1 = false)
         (issued (save_issue_to_database renumbered "edited") s) ∧
  ∃ kept,
    table_rows (world (save_issue_to_database renumbered "edited" s).2)
      !! github_issue_id renumbered = Some kept ∧
    ∀ f, f ∈ PROTECTED_FIELDS → field_value f kept = field_value f stored.
Proof.
  intros s.
  destruct protected_fields_survive_update as (_ & _ & Hrun).
  destruct (Hrun renumbered "edited" s (one_row []) stored (one_row []))
    as [Hnowrite Hkept].
  - done.
  - evaluate.
  - evaluate.
  - split.
    + apply Hnowrite, renumbered_differs_in_protected_only.
    + apply (Hkept false). evaluate.
Defined.

(** C8, counterexample: issue 4200 is stored and an 'opened' event for it
    arrives with a new title: the step issues an insert for the incoming
    record (which the keyed table rejects) and not an update of the stored
    one. *)
Lemma opened_duplicate_counterexample :
  ¬ opened_duplicate_treated_as_update retitled (start (one_row [])).
Proof.
  intros [_ Hnoinsert].
  assert ((insert_call retitled,
           Some (CollaboratorError "duplicate primary key"))
          ∈ issued (save_issue_to_database retitled "opened")
                   (start (one_row []))) as Hin by find_event.
  rewrite Forall_forall in Hnoinsert. exact (Hnoinsert _ Hin).
Qed.

(** C8, witness: the same delivery, as the run of the step. *)
Lemma opened_event_inserts_unconditionally_witness :
  save_issue_to_database retitled "opened" (start (one_row []))
  = (Raise (CollaboratorError "duplicate primary key"),
     after (start (one_row [])) (one_row [])
           [(open_table_call ISSUE_TABLE_NAME, None);
            (insert_call retitled,
             Some (CollaboratorError "duplicate primary key"))]).
Proof.
  apply (opened_event_inserts_unconditionally
           retitled (start (one_row [])) (one_row [])
           (Raise (CollaboratorError "duplicate primary key")) (one_row [])).
  - evaluate.
  - evaluate.
Defined.

End RefExamples.

(** * Further properties of the controller *)

(** ** The hook, path by path *)

Section HookPaths.
Context {E : Env}.

Lemma prelude_state issue s : (log_labels_and_assignees issue s).2 = s.
Proof.
  unfold log_labels_and_assignees, bind, lift, ret.
  destruct (truthy (labels issue)), (truthy (assignees issue));
    repeat match goal with
           | |- context [subscript_all ?l ?k] => destruct (subscript_all l k)
           end; done.
Qed.

(** The whole hook as one case analysis on what its collaborators do. *)
Lemma hook_run data s :
  github_webhook_issues data s =
  match from_webhook_payload data with
  | Raise e => (error_outcome e, s)
  | Ok issue =>
      match (log_labels_and_assignees issue s).1 with
      | Raise e => (error_outcome e, s)
      | Ok _ =>
          let '(r, s1) :=
            save_issue_to_database issue (event_action data) s in
          match r with
          | Raise e => (error_outcome e, s1)
          | Ok false => (skipped_outcome, s1)
          | Ok true =>
              let '(rsearch, w2) :=
                search_similar_issues issue 10 (world s1) in
              match rsearch with
              | Raise e =>
                  (error_outcome (UnboundLocalError "similar_issues"),
                   after s1 w2 [(search_call issue 10, Some e)])
              | Ok similar =>
                  let '(rl, w3) := log_similar_issues similar issue w2 in
                  let '(rs, w4) :=
                    should_send_comment (event_action data) issue similar w3
                  in
                  let searched :=
                    searched_events (event_action data) issue similar rl rs in
                  match rs with
                  | Raise e => (error_outcome e, after s1 w4 searched)
                  | Ok false => (processed_outcome, after s1 w4 searched)
                  | Ok true =>
                      let '(rc, w5) := send_issue_comment issue similar w4 in
                      (match rc with
                       | Ok _ => processed_outcome
                       | Raise e => error_outcome e
                       end,
                       after s1 w5
                         (searched ++
                          [(send_comment_call issue similar, raised rc)]))
                  end
              end
          end
      end
  end.
Proof.
  destruct (from_webhook_payload data) as [issue|e] eqn:Hmap.
  2:{ unfold github_webhook_issues, hook_body, bind, lift. by rewrite Hmap. }
  destruct (log_labels_and_assignees issue s) as [rp sp] eqn:Hpre.
  pose proof (prelude_state issue s) as Hsame. rewrite Hpre in Hsame.
  simpl in Hsame. subst sp. simpl. destruct rp as [[]|e].
  2:{ unfold github_webhook_issues, hook_body, event_action.
      unfold bind at 1. unfold lift at 1. rewrite Hmap.
      unfold bind at 1. by rewrite Hpre. }
  assert (reaches_reconciliation data issue s) as Hreach.
  { split; [done | by rewrite Hpre]. }
  destruct (save_issue_to_database issue (event_action data) s)
    as [[[]|e] s1] eqn:Hs.
  - destruct (search_similar_issues issue 10 (world s1))
      as [[similar|e] w2] eqn:Hsearch.
    + destruct (log_similar_issues similar issue w2) as [rl w3] eqn:Hlog.
      destruct (should_send_comment (event_action data) issue similar w3)
        as [rs w4] eqn:Hsend.
      by rewrite
        (hook_reply_run _ _ _ _ _ _ _ _ _ _ Hreach Hs Hsearch Hlog Hsend).
    + by eapply hook_search_raise_run.
  - by eapply hook_skipped.
  - by eapply hook_save_raise.
Qed.

(** The shapes of the trace of one reconciliation step. *)
Lemma save_shape issue action s :
  ∃ r w r0 rest,
    save_issue_to_database issue action s
      = (r, after s w ((open_table_call ISSUE_TABLE_NAME, r0) :: rest)) ∧
    (rest = [] ∨
     (∃ r1, rest = [(insert_call issue, r1)]) ∨
     (∃ r1, rest = [(get_call (github_issue_id issue), r1)]) ∨
     (∃ m r2, rest = [(get_call (github_issue_id issue), None);
                      (update_call m (github_issue_id issue), r2)]) ∨
     (∃ r2, rest = [(get_call (github_issue_id issue), None);
                    (insert_call issue, r2)])).
Proof.
  destruct (db_open_table ISSUE_TABLE_NAME (world s)) as [[[]|e] w1] eqn:Ho.
  2:{ eexists _, _, _, _. split; [by apply save_open_raise | by left]. }
  destruct (decide (action = "opened")) as [->|Ha].
  { destruct (table_insert issue w1) as [r w2] eqn:Hi.
    eexists _, _, _, _. split; [by eapply save_opened_run|].
    right. left. by eexists. }
  destruct (table_get (github_issue_id issue) w1) as [[[existing|]|e] w2] eqn:Hg.
  - rewrite (save_found_run _ _ _ _ _ _ Ha Ho Hg); simpl. case_decide as Hd.
    + eexists _, _, _, _. split; [done|]. right. right. left. by eexists.
    + destruct (table_update _ _ w2) as [r w3] eqn:Hu.
      eexists _, _, _, _. split; [done|]. do 3 right. left. by eexists _, _.
  - destruct (table_insert issue w2) as [r w3] eqn:Hi.
    eexists _, _, _, _. split; [by eapply save_not_found_run|].
    do 4 right. by eexists.
  - eexists _, _, _, _. split; [by eapply save_get_raise|].
    right. right. left. by eexists.
Qed.

End HookPaths.

(** ** What the hook answers, and when *)

Section HookProperties.
Context {E : Env}.

(** Case analysis along [hook_run]: after it, every collaborator result on
    the path taken is a variable with its equation in the context. *)
Ltac hook_paths data s :=
  rewrite (hook_run data s);
  destruct (from_webhook_payload data) as [?issue|?e] eqn:Hmap;
  [destruct (log_labels_and_assignees issue s).1 as [[]|?e] eqn:Hpre;
   [destruct (save_cases issue (event_action data) s)
      as (r & w & evs & Hsave & Htable & Hres);
    rewrite Hsave; destruct r as [[]|?e];
    [destruct (search_similar_issues issue 10 (world (after s w evs)))
       as [[similar|?e] w2] eqn:Hsearch;
     [destruct (log_similar_issues similar issue w2) as [rl w3] eqn:Hlog;
      destruct (should_send_comment (event_action data) issue similar w3)
        as [[[]|?e] w4] eqn:Hsend;
      [destruct (send_issue_comment issue similar w4)
         as [[[]|?e] w5] eqn:Hcomment| |]| ]| |]| ]| ].

(** X8: the hook answers with one of three outcomes; its status is
    "success" or "error", never "skipped", and the HTTP status is 500
    exactly when the status is "error". *)
Theorem hook_outcomes data s :
  let outcome := (github_webhook_issues data s).1 in
  (outcome = skipped_outcome ∨ outcome = processed_outcome ∨
   ∃ e, outcome = error_outcome e) ∧
  status outcome.1 ∈ ["success"; "error"] ∧
  (outcome.2 = INTERNAL_SERVER_ERROR ↔ status outcome.1 = "error").
Proof.
  hook_paths data s; simpl;
    (split; [eauto | split; [set_solver | done]]).
Qed.

Ltac trace_simpl :=
  simpl; rewrite <- ?app_assoc, ?drop_app_length, ?drop_all; simpl.

Lemma subscript_all_result (ds : list Dict) (key : string) :
  match subscript_all ds key with
  | Ok _ => Forall (λ d : Dict, is_Some (d !! key)) ds
  | Raise e =>
      e = KeyError key ∧ ¬ Forall (λ d : Dict, is_Some (d !! key)) ds
  end.
Proof.
  induction ds as [|d ds IH]; simpl; [by constructor|]. unfold subscript.
  destruct (d !! key) as [v|] eqn:Hd.
  - destruct (subscript_all ds key) as [vs|e].
    + constructor; [by eexists | done].
    + destruct IH as [-> Hnot]. split; [done|].
      intros Hall. apply Hnot. by apply Forall_cons in Hall as [_ Hrest].
  - split; [done|]. intros Hall. apply Forall_cons in Hall as [[v Hv] _].
    congruence.
Qed.

(** The prelude returns exactly on well-formed descriptors, and otherwise
    raises the [KeyError] of the missing key. *)
Lemma prelude_result issue s :
  match (log_labels_and_assignees issue s).1 with
  | Ok _ => well_formed_descriptors issue
  | Raise e =>
      ¬ well_formed_descriptors issue ∧
      (e = KeyError "name" ∨ e = KeyError "login")
  end.
Proof.
  unfold log_labels_and_assignees, well_formed_descriptors, bind, lift, ret.
  pose proof (subscript_all_result (get_labels_list issue) "name") as Hl.
  pose proof (subscript_all_result (get_assignees_list issue) "login") as Ha.
  destruct (truthy (labels issue)), (truthy (assignees issue)),
    (subscript_all (get_labels_list issue) "name"),
    (subscript_all (get_assignees_list issue) "login"); simpl;
    naive_solver.
Qed.

(** X1: an event is rejected before persistence exactly when the entity
    mapper raises or a label (assignee) descriptor of a truthy attribute
    lacks its [name] ([login]) key: the hook then answers with the error
    outcome of that exception and has called no collaborator, so neither
    the world nor the trace has changed. *)
Theorem rejected_before_persistence data s :
  (∀ e, from_webhook_payload data = Raise e →
        github_webhook_issues data s = (error_outcome e, s)) ∧
  (∀ issue,
     from_webhook_payload data = Ok issue →
     (reaches_reconciliation data issue s ↔ well_formed_descriptors issue) ∧
     (¬ well_formed_descriptors issue →
      ∃ key, key ∈ ["name"; "login"] ∧
             github_webhook_issues data s
             = (error_outcome (KeyError key), s))).
Proof.
  split.
  - intros e Hmap. rewrite hook_run. by rewrite Hmap.
  - intros issue Hmap. pose proof (prelude_result issue s) as Hpre. split.
    + unfold reaches_reconciliation. split.
      * intros [_ Hok]. by rewrite Hok in Hpre.
      * intros Hwf. split; [done|].
        destruct (log_labels_and_assignees issue s).1 as [[]|e]; [done|].
        by destruct Hpre.
    + intros Hnot. rewrite hook_run, Hmap.
      destruct (log_labels_and_assignees issue s).1 as [[]|e]; [done|].
      destruct Hpre as [_ [-> | ->]]; eexists; (split; [|done]); set_solver.
Qed.

(** X4: in every run of the hook all table calls come before all search
    and comment calls, and a search or comment call is made only after a
    reconciliation step in which no table call raised and which returned
    should-reply = true. *)
Theorem reply_calls_follow_persistence data s :
  ∃ evs_table evs_reply : list Event,
    hook_issued data s = (evs_table ++ evs_reply)%list ∧
    Forall (λ ev : Event, is_table_call ev.1 = true) evs_table ∧
    Forall (λ ev : Event, is_reply_call ev.1 = true) evs_reply ∧
    (evs_reply ≠ [] →
     Forall (λ ev : Event, ev.2 = None) evs_table ∧
     ∃ issue s1,
       from_webhook_payload data = Ok issue ∧
       save_issue_to_database issue (event_action data) s = (Ok true, s1)).
Proof.
  unfold hook_issued. hook_paths data s; trace_simpl;
    first
      [ by (exists [], []; repeat split; try done; constructor)
      | by (exists evs, []; rewrite app_nil_r; repeat split;
            try done; constructor)
      | (exists evs; eexists; split; [reflexivity|];
         split; [done|]; split; [by repeat constructor|];
         intros _; destruct Hres as [Hnone _]; eauto) ].
Qed.

(** X5: [send_issue_comment] is called only for the mapped issue, after a
    reconciliation that returned should-reply = true, with the list the
    search returned, and after [should_send_comment] returned true on that
    list. *)
Theorem comment_only_when_decided data s commented sims res :
  (send_comment_call commented sims, res) ∈ hook_issued data s →
  ∃ s1 w2 rl w3 w4,
    from_webhook_payload data = Ok commented ∧
    save_issue_to_database commented (event_action data) s = (Ok true, s1) ∧
    search_similar_issues commented 10 (world s1) = (Ok sims, w2) ∧
    log_similar_issues sims commented w2 = (rl, w3) ∧
    should_send_comment (event_action data) commented sims w3 = (Ok true, w4) ∧
    res = raised (send_issue_comment commented sims w4).1.
Proof.
  unfold hook_issued. hook_paths data s; trace_simpl; intros Hin;
    try (by apply elem_of_nil in Hin);
    try (rewrite Forall_forall in Htable; by specialize (Htable _ Hin));
    (apply elem_of_app in Hin as [Hin|Hin];
     [rewrite Forall_forall in Htable; by specialize (Htable _ Hin)|]);
    unfold searched_events in Hin; simpl in Hin;
    repeat (apply elem_of_cons in Hin as [Hin|Hin]; [by simplify_eq|]);
    try (by apply elem_of_nil in Hin).
  all: apply elem_of_cons in Hin as [Hin|Hin];
    [|by apply elem_of_nil in Hin]; simplify_eq;
    eexists _, _, _, _, _; repeat split; try done; by rewrite Hcomment.
Qed.

(** X6: when the similarity search raises after a reconciliation that
    returned should-reply = true, the inner handler swallows the exception
    but the event still fails: the read of the unbound [similar_issues]
    raises, the hook answers with the error outcome of that
    [UnboundLocalError], and no comment collaborator is called. *)
Theorem search_failure_fails_the_event data issue s s1 e w2 :
  reaches_reconciliation data issue s →
  save_issue_to_database issue (event_action data) s = (Ok true, s1) →
  search_similar_issues issue 10 (world s1) = (Raise e, w2) →
  github_webhook_issues data s
  = (({| status := "error";
         message := str_exn (UnboundLocalError "similar_issues") |},
      INTERNAL_SERVER_ERROR),
     after s1 w2 [(search_call issue 10, Some e)]) ∧
  hook_issued data s
  = (issued (save_issue_to_database issue (event_action data)) s
     ++ [(search_call issue 10, Some e)])%list.
Proof.
  intros Hreach Hs Hsearch.
  pose proof (hook_search_raise_run _ _ _ _ _ _ Hreach Hs Hsearch) as Hh.
  split; [done|].
  destruct (save_cases issue (event_action data) s)
    as (r & w & evs & Hsave & _ & _).
  rewrite (issued_after _ _ _ _ _ Hsave).
  apply (hook_issued_after _ _ _ _ _ _ _ Hh).
  rewrite Hs in Hsave. by simplify_eq.
Qed.

(** X7: a "success" answer means the issue went through the
    reconciliation step: the payload mapped, the step returned a decision
    without any table call raising, and the answer is the skip outcome for
    the decision false and the processed outcome for true. *)
Theorem success_implies_persisted data s :
  status (github_webhook_issues data s).1.1 = "success" →
  ∃ issue (b : bool) s1,
    reaches_reconciliation data issue s ∧
    save_issue_to_database issue (event_action data) s = (Ok b, s1) ∧
    (github_webhook_issues data s).1
    = (if b then processed_outcome else skipped_outcome) ∧
    Forall (λ ev : Event, ev.2 = None)
           (issued (save_issue_to_database issue (event_action data)) s).
Proof.
  pose proof (hook_run data s) as Hrun. revert Hrun.
  destruct (from_webhook_payload data) as [issue|e0] eqn:Hmap;
    [|by intros ->].
  destruct (log_labels_and_assignees issue s).1 as [[]|e0] eqn:Hpre;
    [|by intros ->].
  destruct (save_cases issue (event_action data) s)
    as (r & w & evs & Hsave & _ & Hres).
  rewrite Hsave. intros Hrun Hstatus.
  assert (reaches_reconciliation data issue s) as Hreach by done.
  destruct r as [b|e0]; [|by rewrite Hrun in Hstatus].
  exists issue, b, (after s w evs).
  rewrite (issued_after _ _ _ _ _ Hsave). destruct Hres as [Hnone _].
  split; [done|]. split; [done|]. split; [|done].
  destruct b; [|by rewrite Hrun].
  revert Hrun Hstatus.
  destruct (search_similar_issues issue 10 (world (after s w evs)))
    as [[similar|e0] w2]; [|by intros ->].
  destruct (log_similar_issues similar issue w2) as [rl w3].
  destruct (should_send_comment (event_action data) issue similar w3)
    as [[[]|e0] w4]; try (by intros ->).
  destruct (send_issue_comment issue similar w4) as [[[]|e0] w5];
    by intros ->.
Qed.

End HookProperties.

(** ** What the reconciliation step does to the table *)

Section StepProperties.
Context {E : Env}.

(** X2: the reconciliation step raises only when a table call raised: the
    exception is that of the last table call issued, and the calls before
    it returned.  Malformed or nameless label descriptors never make the
    step raise. *)
Theorem step_raises_only_on_table_error issue action s e s' :
  save_issue_to_database issue action s = (Raise e, s') →
  ∃ (c : Call) (evs0 : list Event),
    is_table_call c = true ∧
    issued (save_issue_to_database issue action) s
    = (evs0 ++ [(c, Some e)])%list ∧
    Forall (λ ev : Event, ev.2 = None) evs0.
Proof.
  intros Hs.
  destruct (save_cases issue action s) as (r & w & evs & Hrun & Htable & Hr).
  rewrite (issued_after _ _ _ _ _ Hrun). rewrite Hs in Hrun.
  injection Hrun as <- _. destruct Hr as (c & evs0 & -> & Hnone).
  exists c, evs0. split; [|done].
  rewrite Forall_app, Forall_singleton in Htable. by destruct Htable.
Qed.

(** X3: every run of the step starts by opening the issue table, issues
    at most three table calls, and issues at most one write (insert or
    update), which is then its last call: nothing is called after a
    write. *)
Theorem one_write_per_delivery issue action s :
  ∃ r0 rest,
    issued (save_issue_to_database issue action) s
    = (open_table_call ISSUE_TABLE_NAME, r0) :: rest ∧
    (length rest ≤ 2)%nat ∧
    ∀ (evs1 : list Event) ev evs2,
      issued (save_issue_to_database issue action) s
      = (evs1 ++ ev :: evs2)%list →
      is_write_call ev.1 = true → evs2 = [].
Proof.
  destruct (save_shape issue action s) as (r & w & r0 & rest & Hrun & Hshape).
  rewrite (issued_after _ _ _ _ _ Hrun). exists r0, rest.
  split; [done|].
  destruct Hshape as [->|[[r1 ->]|[[r1 ->]|[(m & r2 & ->)|[r2 ->]]]]];
    (split; [simpl; lia|]); intros evs1 ev evs2 Heq Hw;
    destruct evs1 as [|? [|? [|? [|? ?]]]]; by simplify_eq/=.
Qed.

(** X10: a payload without an [action] key gets the action "unknown" and
    is handled as a non-creation event: once the table is open, the next
    call of the hook is the lookup of the issue's id, before any write. *)
Theorem missing_action_is_looked_up data issue s w1 :
  payload_action data = None →
  reaches_reconciliation data issue s →
  db_open_table ISSUE_TABLE_NAME (world s) = (Ok (), w1) →
  ∃ r rest,
    hook_issued data s
    = (open_table_call ISSUE_TABLE_NAME, None)
        :: (get_call (github_issue_id issue), r) :: rest.
Proof.
  intros Hnone [Hmap Hpre] Ho.
  assert (event_action data = "unknown") as Ha.
  { unfold event_action. by rewrite Hnone. }
  assert ("unknown" ≠ "opened") as Hne by done.
  assert (∃ r w rg rest0,
            save_issue_to_database issue "unknown" s
            = (r, after s w ((open_table_call ISSUE_TABLE_NAME, None)
                               :: (get_call (github_issue_id issue), rg)
                               :: rest0))) as (r & w & rg & rest0 & Hs).
  { destruct (table_get (github_issue_id issue) w1)
      as [[[existing|]|e] w2] eqn:Hg.
    - rewrite (save_found_run _ _ _ _ _ _ Hne Ho Hg). simpl.
      case_decide; [by eexists _, _, _, _|].
      destruct (table_update _ _ w2) as [ru w3]. by eexists _, _, _, _.
    - destruct (table_insert issue w2) as [ri w3] eqn:Hi.
      rewrite (save_not_found_run _ _ _ _ _ _ _ Hne Ho Hg Hi).
      by eexists _, _, _, _.
    - rewrite (save_get_raise _ _ _ _ _ _ Hne Ho Hg). by eexists _, _, _, _. }
  unfold hook_issued. rewrite hook_run, Hmap, Hpre, Ha, Hs.
  destruct r as [[]|e]; simpl;
    repeat match goal with
           | |- context [let '(_, _) := ?x in _] => destruct x as [[[]|?] ?]
           | |- context [match ?x with (_, _) => _ end] =>
               destruct x as [[?|?] ?]
           end;
    simpl; rewrite <- ?app_assoc, ?drop_app_length; simpl;
    by eexists _, _.
Qed.

(** X11: on every path the step returns should-reply = true only if the
    incoming record carries the reply-trigger label. *)
Theorem reply_requires_incoming_label issue action s s' :
  save_issue_to_database issue action s = (Ok true, s') →
  has_reply_label issue.
Proof.
  intros Hs.
  destruct (save_cases issue action s) as (r & w & evs & Hrun & _ & Hr).
  rewrite Hs in Hrun. injection Hrun as <- _.
  apply labels_have_reply_spec.
  destruct Hr as [_ [Hb|[existing Hb]]]; [done|].
  symmetry in Hb. unfold reply_transition in Hb.
  by apply andb_true_iff in Hb as [? _].
Qed.

(** X12: on the update path a positive decision is never returned without
    a write: when the stored row lacks the reply label and the incoming
    record has it, the [labels] field is in the diff, so the step has
    issued the update, and the update has returned, before it answers
    true (provided [labels] is not a protected field). *)
Theorem positive_decision_is_persisted issue action s w1 existing w2 s' :
  action ≠ "opened" →
  F_labels ∉ PROTECTED_FIELDS →
  db_open_table ISSUE_TABLE_NAME (world s) = (Ok (), w1) →
  table_get (github_issue_id issue) w1 = (Ok (Some existing), w2) →
  save_issue_to_database issue action s = (Ok true, s') →
  diff_and_get_changed_fields existing issue !! F_labels
  = Some (field_value F_labels issue) ∧
  (update_call (diff_and_get_changed_fields existing issue)
               (github_issue_id issue), None)
  ∈ issued (save_issue_to_database issue action) s.
Proof.
  intros Ha Hl Ho Hg Hs.
  pose proof (save_found_decision _ _ _ _ _ _ _ _ Ha Ho Hg Hs) as Hb.
  assert (labels issue ≠ labels existing) as Hne.
  { intros Heq. rewrite Heq in Hb. unfold reply_transition in Hb.
    by rewrite andb_negb_r in Hb. }
  assert (diff_and_get_changed_fields existing issue !! F_labels
          = Some (field_value F_labels issue)) as Hdiff.
  { rewrite diff_lookup. apply decide_True. split; [done|].
    intros Hv. by apply opt_val_inj in Hv. }
  split; [done|].
  pose proof (save_found_run _ _ _ _ _ _ Ha Ho Hg) as Hrun. simpl in Hrun.
  rewrite decide_False in Hrun by (intros Hd; by rewrite Hd in Hdiff).
  destruct (table_update _ _ w2) as [[[]|e] w3];
    rewrite Hs in Hrun; [|done].
  unfold issued. rewrite Hs. injection Hrun as _ ->. simpl.
  rewrite drop_app_length. set_solver.
Qed.

End StepProperties.

Section ConsecutiveDeliveries.
Context {E : Env} {L : TableLaws E}.

(** X9: two non-creation deliveries for the same id in a row: after the
    first has returned, the second finds a stored row with the labels of
    the first, so its decision compares the incoming labels with the
    labels delivered last; in particular an event that leaves the labels
    as they are never triggers a reply, whatever else it changes.  The
    second delivery returns unless its update call raises. *)
Theorem next_decision_compares_with_last_delivery
    issue1 action1 issue2 action2 s b1 s1 w1 r w2 :
  action1 ≠ "opened" →
  action2 ≠ "opened" →
  F_labels ∉ PROTECTED_FIELDS →
  github_issue_id issue2 = github_issue_id issue1 →
  save_issue_to_database issue1 action1 s = (Ok b1, s1) →
  db_open_table ISSUE_TABLE_NAME (world s1) = (Ok (), w1) →
  table_get (github_issue_id issue2) w1 = (Ok r, w2) →
  ∃ found,
    r = Some found ∧ labels found = labels issue1 ∧
    (∀ b2 s2,
       save_issue_to_database issue2 action2 s1 = (Ok b2, s2) →
       b2 = reply_transition (labels issue2) (labels issue1) ∧
       (labels issue2 = labels issue1 → b2 = false)) ∧
    (diff_and_get_changed_fields found issue2 = ∅ ∨
     is_ok (table_update (diff_and_get_changed_fields found issue2)
                         (github_issue_id issue2) w2).1 = true →
     (save_issue_to_database issue2 action2 s1).1
     = Ok (reply_transition (labels issue2) (labels issue1))).
Proof.
  intros Ha1 Ha2 Hl Hid Hs1 Ho Hg.
  destruct (delivered_row _ _ _ _ _ Ha1 Hs1) as (r1 & Hrow & _ & Hlab).
  specialize (Hlab Hl). rewrite <- Hid in Hrow.
  destruct (get_rows _ _ _ _ Hg) as [Hr _].
  rewrite (open_table_rows _ _ _ Ho), Hrow in Hr. subst r.
  exists r1. split; [done|]. split; [done|]. rewrite <- Hlab. split.
  - intros b2 s2 Hs2.
    rewrite (save_found_decision _ _ _ _ _ _ _ _ Ha2 Ho Hg Hs2).
    split; [done|]. intros ->. unfold reply_transition.
    by rewrite andb_negb_r.
  - intros Hu.
    by rewrite (save_found_returns _ _ _ _ _ _ Ha2 Ho Hg Hu).
Qed.

End ConsecutiveDeliveries.

(** ** The further properties on the reference instance *)

Section RefFurther.
Import Ref.

Ltac evaluate := vm_compute; reflexivity.
Ltac find_event :=
  vm_compute; repeat first [apply list_elem_of_here | apply list_elem_of_further].

(** X1, witness: the decoder yields label descriptors without [name]. *)
Lemma rejected_before_persistence_witness :
  ∃ key,
    key ∈ ["name"; "login"] ∧
    github_webhook_issues (E := nameless_env)
      (event "opened" labelled) (start (world_of [] []))
    = (error_outcome (KeyError key), start (world_of [] [])).
Proof.
  destruct (rejected_before_persistence (E := nameless_env)
              (event "opened" labelled) (start (world_of [] [])))
    as [_ Hmapped].
  destruct (Hmapped labelled eq_refl) as [_ Hrejected].
  apply Hrejected. intros [Hnames _]. specialize (Hnames eq_refl).
  assert (get_labels_list (E := nameless_env) labelled
          = [{[ "title" := VStr "bug" ]};
             {[ "title" := VStr "needs-reply" ]}]) as Hdecoded by evaluate.
  rewrite Hdecoded in Hnames.
  apply Forall_cons in Hnames as [[v Hv] _].
  vm_compute in Hv. discriminate.
Defined.

(** X2, witness: the lookup raises. *)
Lemma step_raises_only_on_table_error_witness :
  ∃ (c : Call) (evs0 : list Event),
    is_table_call c = true ∧
    issued (save_issue_to_database labelled "edited")
           (start (one_row ["get"]))
    = (evs0 ++ [(c, Some (CollaboratorError "get failed"))])%list ∧
    Forall (λ ev : Event, ev.2 = None) evs0.
Proof.
  apply (step_raises_only_on_table_error
           labelled "edited" (start (one_row ["get"]))
           (CollaboratorError "get failed")
           (save_issue_to_database labelled "edited"
                                   (start (one_row ["get"]))).2).
  evaluate.
Defined.

(** X5, witness: a new issue with the reply label, every collaborator
    up. *)
Lemma comment_only_when_decided_witness :
  ∃ s1 w2 rl w3 w4,
    from_webhook_payload (event "opened" labelled) = Ok labelled ∧
    save_issue_to_database labelled (event_action (event "opened" labelled))
                           (start (world_of [] [])) = (Ok true, s1) ∧
    search_similar_issues labelled 10 (world s1) = (Ok [], w2) ∧
    log_similar_issues [] labelled w2 = (rl, w3) ∧
    should_send_comment (event_action (event "opened" labelled))
                        labelled [] w3 = (Ok true, w4) ∧
    None = raised (send_issue_comment labelled [] w4).1.
Proof.
  apply (comment_only_when_decided (E := ref_env)
           (event "opened" labelled) (start (world_of [] []))
           labelled [] None).
  find_event.
Defined.

(** X6, witness: the search is down. *)
Lemma search_failure_fails_the_event_witness :
  hook_issued (E := ref_env) (event "opened" labelled)
              (start (world_of [] ["search_similar_issues"]))
  = (issued (save_issue_to_database
               labelled (event_action (event "opened" labelled)))
            (start (world_of [] ["search_similar_issues"]))
     ++ [(search_call labelled 10,
          Some (CollaboratorError "search_similar_issues failed"))])%list.
Proof.
  apply (search_failure_fails_the_event (E := ref_env)
           (event "opened" labelled) labelled
           (start (world_of [] ["search_similar_issues"]))
           (save_issue_to_database
              labelled "opened"
              (start (world_of [] ["search_similar_issues"]))).2
           (CollaboratorError "search_similar_issues failed")
           (world_of [labelled] ["search_similar_issues"])).
  - split; evaluate.
  - evaluate.
  - evaluate.
Defined.

(** X7, witness: an 'edited' event identical to the stored row. *)
Lemma success_implies_persisted_witness :
  ∃ issue (b : bool) s1,
    reaches_reconciliation (E := ref_env) (event "edited" stored) issue
                           (start (one_row [])) ∧
    save_issue_to_database issue (event_action (event "edited" stored))
                           (start (one_row [])) = (Ok b, s1) ∧
    (github_webhook_issues (E := ref_env) (event "edited" stored)
                           (start (one_row []))).1
    = (if b then processed_outcome else skipped_outcome) ∧
    Forall (λ ev : Event, ev.2 = None)
           (issued (save_issue_to_database
                      issue (event_action (event "edited" stored)))
                   (start (one_row []))).
Proof.
  apply (success_implies_persisted (E := ref_env)
           (event "edited" stored) (start (one_row []))).
  evaluate.
Defined.

(** X9, witness: the reply label arrives, then the title changes. *)
Lemma next_decision_compares_with_last_delivery_witness :
  let s1 := (save_issue_to_database labelled "labeled"
                                    (start (one_row []))).2 in
  ∃ found,
    Some labelled = Some found ∧ labels found = labels labelled ∧
    (∀ b2 s2,
       save_issue_to_database retitled "edited" s1 = (Ok b2, s2) →
       b2 = reply_transition (labels retitled) (labels labelled) ∧
       (labels retitled = labels labelled → b2 = false)) ∧
    (diff_and_get_changed_fields found retitled = ∅ ∨
     is_ok (table_update (diff_and_get_changed_fields found retitled)
                         (github_issue_id retitled) (world s1)).1 = true →
     (save_issue_to_database retitled "edited" s1).1
     = Ok (reply_transition (labels retitled) (labels labelled))).
Proof.
  intros s1.
  apply (next_decision_compares_with_last_delivery
           labelled "labeled" retitled "edited" (start (one_row []))
           true s1 (world s1) (Some labelled) (world s1)).
  - done.
  - done.
  - apply ref_labels_not_protected.
  - reflexivity.
  - evaluate.
  - evaluate.
  - evaluate.
Defined.

(** X10, witness: the payload has no action, the table holds the row. *)
Lemma missing_action_is_looked_up_witness :
  ∃ r rest,
    hook_issued (E := ref_env) (event_without_action labelled)
                (start (one_row []))
    = (open_table_call ISSUE_TABLE_NAME, None)
        :: (get_call (github_issue_id labelled), r) :: rest.
Proof.
  apply (missing_action_is_looked_up (E := ref_env)
           (event_without_action labelled) labelled (start (one_row []))
           (one_row [])).
  - reflexivity.
  - split; evaluate.
  - evaluate.
Defined.

(** X11, witness: a new issue with the reply label. *)
Lemma reply_requires_incoming_label_witness : has_reply_label labelled.
Proof.
  apply (reply_requires_incoming_label
           labelled "opened" (start (world_of [] []))
           (save_issue_to_database labelled "opened"
                                   (start (world_of [] []))).2).
  evaluate.
Defined.

(** X12, witness: the reply label arrives on a stored row without it. *)
Lemma positive_decision_is_persisted_witness :
  diff_and_get_changed_fields stored labelled !! F_labels
  = Some (field_value F_labels labelled) ∧
  (update_call (diff_and_get_changed_fields stored labelled)
               (github_issue_id labelled), None)
  ∈ issued (save_issue_to_database labelled "labeled") (start (one_row [])).
Proof.
  apply (positive_decision_is_persisted
           labelled "labeled" (start (one_row [])) (one_row []) stored
           (one_row [])
           (save_issue_to_database labelled "labeled"
                                   (start (one_row []))).2).
  - done.
  - apply ref_labels_not_protected.
  - evaluate.
  - evaluate.
  - evaluate.
Defined.

End RefFurther.
